(** * Semantic-version bump script ([scripts/version.js])

    A shallow embedding of the version-management script of
    my-sample-package and the properties of its parser, formatter,
    bump rules and command controller.

    Modelling conventions.
    - A JavaScript string is a [string]: a sequence of 8-bit characters.
      Every character the script's regular expressions, [split], [trim]
      and [parseInt] tell apart lies in that range, except the line
      terminators U+2028/U+2029 and the space separators above U+00FF.
    - A JavaScript Number is [NaN] or [Int z] with [z : Z].  IEEE doubles
      represent every integer of magnitude at most [MAX_SAFE_INTEGER]
      exactly, and on that range [parseInt], [++] and the conversion to
      a string agree with the integer operations used here; statements
      about numbers carry that bound.
    - Regular expressions are values of [regex], run by a backtracking
      matcher with greedy quantifiers, as the ECMAScript matcher does.
    - Files, the console and the source-control tool are fields of an
      explicit [World] threaded through the controller. *)

From Stdlib Require Import ZArith Lia List Bool Ascii String.
From Stdlib Require Import Decimal DecimalString DecimalPos DecimalN.
Import ListNotations.

Local Open Scope string_scope.
Local Open Scope Z_scope.

(* ================================================================= *)
(** ** Characters and strings *)

Definition code (c : ascii) : nat := nat_of_ascii c.

Definition in_range (lo hi : nat) (c : ascii) : bool :=
  (Nat.leb lo (code c) && Nat.leb (code c) hi)%bool.

(** [\d] *)
Definition is_digit (c : ascii) : bool := in_range 48 57 c.

(** Line terminators: what [.] refuses (LF, CR). *)
Definition is_line_terminator (c : ascii) : bool :=
  (Nat.eqb (code c) 10 || Nat.eqb (code c) 13)%bool.

(** [.] *)
Definition dot (c : ascii) : bool := negb (is_line_terminator c).

(** [\s], also the white space [trim] and [parseInt] skip:
    TAB, LF, VT, FF, CR, SP, NBSP. *)
Definition is_space (c : ascii) : bool :=
  (in_range 9 13 c || Nat.eqb (code c) 32 || Nat.eqb (code c) 160)%bool.

(** [\w] *)
Definition is_word (c : ascii) : bool :=
  (in_range 97 122 c || in_range 65 90 c || is_digit c
   || Nat.eqb (code c) 95)%bool.

Definition DQ : ascii := "034"%char.
Definition SQ : ascii := "039"%char.

Definition is_quote (c : ascii) : bool :=
  (Ascii.eqb c DQ || Ascii.eqb c SQ)%bool.

Fixpoint take_while (p : ascii -> bool) (s : string) : string :=
  match s with
  | String c t => if p c then String c (take_while p t) else EmptyString
  | EmptyString => EmptyString
  end.

Fixpoint drop_while (p : ascii -> bool) (s : string) : string :=
  match s with
  | String c t => if p c then drop_while p t else s
  | EmptyString => EmptyString
  end.

Fixpoint all_chars (p : ascii -> bool) (s : string) : bool :=
  match s with
  | String c t => (p c && all_chars p t)%bool
  | EmptyString => true
  end.

Fixpoint rev_string (s : string) (acc : string) : string :=
  match s with
  | String c t => rev_string t (String c acc)
  | EmptyString => acc
  end.

Fixpoint drop (n : nat) (s : string) : string :=
  match n, s with
  | S n', String _ t => drop n' t
  | _, _ => s
  end.

Definition take (n : nat) (s : string) : string := substring 0 n s.

Fixpoint strip_prefix (p s : string) : option string :=
  match p, s with
  | EmptyString, _ => Some s
  | String a p', String b s' =>
      if Ascii.eqb a b then strip_prefix p' s' else None
  | String _ _, EmptyString => None
  end.

(** [String.prototype.trim] *)
Definition trim (s : string) : string :=
  let s1 := drop_while is_space s in
  rev_string (drop_while is_space (rev_string s1 "")) "".

(** [s.split(sep)] for a one-character separator. *)
Fixpoint split (sep : ascii) (s : string) : list string :=
  match s with
  | EmptyString => [EmptyString]
  | String c t =>
      if Ascii.eqb c sep then EmptyString :: split sep t
      else match split sep t with
           | h :: r => String c h :: r
           | [] => [String c EmptyString]
           end
  end.

(** [parts.join(sep)] *)
Fixpoint join (sep : string) (parts : list string) : string :=
  match parts with
  | [] => EmptyString
  | [p] => p
  | p :: rest => p ++ sep ++ join sep rest
  end.

(** [parts[i] = x] on an array, for [i] inside it. *)
Fixpoint set_nth (i : nat) (x : string) (parts : list string) : list string :=
  match i, parts with
  | O, _ :: r => x :: r
  | S i', p :: r => p :: set_nth i' x r
  | _, [] => []
  end.

(* ================================================================= *)
(** ** Numbers *)

Inductive Number : Type :=
| NaN
| Int (z : Z).

Definition MAX_SAFE_INTEGER : Z := 2 ^ 53 - 1.

Definition isNaN (n : Number) : bool :=
  match n with NaN => true | Int _ => false end.

(** [n + 1], also the value [n++] stores. *)
Definition incr (n : Number) : Number :=
  match n with NaN => NaN | Int z => Int (z + 1) end.

(** Decimal digits of a non-negative integer, most significant first,
    without leading zeros. *)
Definition digits_of (n : Z) : string :=
  NilZero.string_of_uint (N.to_uint (Z.to_N n)).

(** [Number.prototype.toString()], also what a template literal
    interpolates. *)
Definition toString (n : Number) : string :=
  match n with
  | NaN => "NaN"
  | Int z => if z <? 0 then String "-" (digits_of (- z)) else digits_of z
  end.

(** Value of a character as a digit of radix 10 or 16. *)
Definition digit_value (c : ascii) : option Z :=
  if is_digit c then Some (Z.of_nat (code c) - 48)
  else if in_range 97 102 c then Some (Z.of_nat (code c) - 87)
  else if in_range 65 70 c then Some (Z.of_nat (code c) - 55)
  else None.

Definition is_radix_digit (radix : Z) (c : ascii) : bool :=
  match digit_value c with
  | Some d => d <? radix
  | None => false
  end.

Fixpoint digits_value (radix : Z) (acc : Z) (s : string) : Z :=
  match s with
  | String c t =>
      match digit_value c with
      | Some d => digits_value radix (radix * acc + d) t
      | None => acc
      end
  | EmptyString => acc
  end.

(** [parseInt(s)] with no radix argument: skip white space, read a sign,
    read a [0x]/[0X] prefix, then the longest run of digits. *)
Definition parseInt (s : string) : Number :=
  let s1 := drop_while is_space s in
  let '(sign, s2) :=
    match s1 with
    | String "-" t => (-1, t)
    | String "+" t => (1, t)
    | _ => (1, s1)
    end in
  let '(radix, s3) :=
    match s2 with
    | String "0" (String "x" t) => (16, t)
    | String "0" (String "X" t) => (16, t)
    | _ => (10, s2)
    end in
  match take_while (is_radix_digit radix) s3 with
  | EmptyString => NaN
  | ds => Int (sign * digits_value radix 0 ds)
  end.

(** [parseInt(x)] where [x] may be [undefined]. *)
Definition parseInt_opt (x : option string) : Number :=
  match x with
  | Some s => parseInt s
  | None => NaN
  end.

(* ================================================================= *)
(** ** Regular expressions *)

Inductive regex : Type :=
| Bol                              (* ^ *)
| Eol                              (* $ *)
| Chr (c : ascii)                  (* a literal character *)
| Lit (s : string)                 (* literal text *)
| Class (p : ascii -> bool)        (* one character of a class *)
| Plus (p : ascii -> bool)         (* C+ for a class C *)
| Star (p : ascii -> bool)         (* C* for a class C *)
| Opt (r : regex)                  (* (?:r)? *)
| Group (n : nat) (r : regex)      (* capturing group number n *)
| Seq (r1 r2 : regex).

Declare Scope regex_scope.
Delimit Scope regex_scope with re.
Bind Scope regex_scope with regex.
Infix "@" := Seq (at level 60, right associativity) : regex_scope.

Record mstate : Type := MState {
  rest : string;                   (* input not consumed yet *)
  pos : nat;                       (* index of [rest] in the input *)
  caps : list (nat * string)       (* captures, most recent first *)
}.

Definition cont : Type := mstate -> option mstate.

(** Greedy repetition of a class: the longest run first, then shorter
    ones while the continuation fails. *)
Fixpoint star (p : ascii -> bool) (s : string) (i : nat)
    (cs : list (nat * string)) (k : cont) : option mstate :=
  match s with
  | String c t =>
      if p c then
        match star p t (S i) cs k with
        | Some r => Some r
        | None => k (MState s i cs)
        end
      else k (MState s i cs)
  | EmptyString => k (MState s i cs)
  end.

Fixpoint rmatch (r : regex) (st : mstate) (k : cont) : option mstate :=
  match r with
  | Bol => if Nat.eqb (pos st) 0 then k st else None
  | Eol => match rest st with EmptyString => k st | String _ _ => None end
  | Chr c =>
      match rest st with
      | String a t =>
          if Ascii.eqb a c then k (MState t (S (pos st)) (caps st)) else None
      | EmptyString => None
      end
  | Lit s =>
      match strip_prefix s (rest st) with
      | Some t => k (MState t (pos st + String.length s) (caps st))
      | None => None
      end
  | Class p =>
      match rest st with
      | String a t =>
          if p a then k (MState t (S (pos st)) (caps st)) else None
      | EmptyString => None
      end
  | Plus p =>
      match rest st with
      | String a t =>
          if p a then star p t (S (pos st)) (caps st) k else None
      | EmptyString => None
      end
  | Star p => star p (rest st) (pos st) (caps st) k
  | Opt r' =>
      match rmatch r' st
              (fun st' => if Nat.eqb (pos st') (pos st) then None else k st')
      with
      | Some x => Some x
      | None => k st
      end
  | Group n r' =>
      rmatch r' st
        (fun st' =>
           k (MState (rest st') (pos st')
                ((n, take (pos st' - pos st) (rest st)) :: caps st')))
  | Seq r1 r2 => rmatch r1 st (fun st1 => rmatch r2 st1 k)
  end.

(** The leftmost match: start positions are tried in order. *)
Fixpoint search (re : regex) (s : string) (i : nat) : option (nat * mstate) :=
  match rmatch re (MState s i []) Some with
  | Some st => Some (i, st)
  | None =>
      match s with
      | String _ t => search re t (S i)
      | EmptyString => None
      end
  end.

(** The result of [re.exec(s)] / [s.match(re)] for a non-global [re]. *)
Record MatchResult : Type := MkMatch {
  index : nat;                     (* where the match starts *)
  matched : string;                (* match[0] *)
  captures : list (nat * string)
}.

Definition exec (re : regex) (s : string) : option MatchResult :=
  match search re s 0 with
  | Some (i, st) => Some (MkMatch i (take (pos st - i) (drop i s)) (caps st))
  | None => None
  end.

(** [match[n]]: [None] is [undefined]. *)
Fixpoint lookup (n : nat) (cs : list (nat * string)) : option string :=
  match cs with
  | (m, s) :: r => if Nat.eqb m n then Some s else lookup n r
  | [] => None
  end.

Definition group (m : MatchResult) (n : nat) : option string :=
  lookup n (captures m).

(** [re.test(s)] *)
Definition test (re : regex) (s : string) : bool :=
  match exec re s with Some _ => true | None => false end.

(* ================================================================= *)
(** ** Errors *)

Inductive exn : Type :=
| Error (message : string)
| TypeError (message : string).

Definition message_of (e : exn) : string :=
  match e with Error m => m | TypeError m => m end.

Inductive result (A : Type) : Type :=
| Ok (a : A)
| Throw (e : exn).
Arguments Ok {A} a.
Arguments Throw {A} e.

Definition bind {A B} (r : result A) (f : A -> result B) : result B :=
  match r with
  | Ok a => f a
  | Throw e => Throw e
  end.

Notation "'try!' x ':=' r 'in' e" := (bind r (fun x => e))
  (at level 10, x name, r at level 100, e at level 200).

(* ================================================================= *)
(** ** parseVersion, formatVersion, bumpVersion *)

Record Version : Type := MkVersion {
  major : Number;
  minor : Number;
  patch : Number;
  prerelease : option string       (* [None] is [null] *)
}.

(** [/^(\d+)\.(\d+)\.(\d+)(?:-(.+))?$/] *)
Definition version_re : regex :=
  (Bol @ Group 1 (Plus is_digit) @ Chr "." @ Group 2 (Plus is_digit)
   @ Chr "." @ Group 3 (Plus is_digit)
   @ Opt (Chr "-" @ Group 4 (Plus dot)) @ Eol)%re.

(** Truthiness of a string-or-null value. *)
Definition truthy (x : option string) : bool :=
  match x with
  | Some (String _ _) => true
  | _ => false
  end.

(** [x || null] *)
Definition or_null (x : option string) : option string :=
  if truthy x then x else None.

Definition parseVersion (version : string) : result Version :=
  match exec version_re version with
  | None => Throw (Error ("Invalid version format: " ++ version))
  | Some m =>
      Ok {| major := parseInt_opt (group m 1);
            minor := parseInt_opt (group m 2);
            patch := parseInt_opt (group m 3);
            prerelease := or_null (group m 4) |}
  end.

Definition formatVersion (versionObj : Version) : string :=
  let version :=
    toString (major versionObj) ++ "." ++ toString (minor versionObj)
    ++ "." ++ toString (patch versionObj) in
  match prerelease versionObj with
  | Some p => if truthy (Some p) then version ++ "-" ++ p else version
  | None => version
  end.

(** The [switch] of [bumpVersion], on the parsed record. *)
Definition bump (parsed : Version) (bumpType : string) : result Version :=
  if String.eqb bumpType "major" then
    Ok {| major := incr (major parsed); minor := Int 0; patch := Int 0;
          prerelease := None |}
  else if String.eqb bumpType "minor" then
    Ok {| major := major parsed; minor := incr (minor parsed);
          patch := Int 0; prerelease := None |}
  else if String.eqb bumpType "patch" then
    Ok {| major := major parsed; minor := minor parsed;
          patch := incr (patch parsed); prerelease := None |}
  else if String.eqb bumpType "premajor" then
    Ok {| major := incr (major parsed); minor := Int 0; patch := Int 0;
          prerelease := Some "alpha.0" |}
  else if String.eqb bumpType "preminor" then
    Ok {| major := major parsed; minor := incr (minor parsed);
          patch := Int 0; prerelease := Some "alpha.0" |}
  else if String.eqb bumpType "prepatch" then
    Ok {| major := major parsed; minor := minor parsed;
          patch := incr (patch parsed); prerelease := Some "alpha.0" |}
  else if String.eqb bumpType "prerelease" then
    if truthy (prerelease parsed) then
      let parts :=
        split "." (match prerelease parsed with Some p => p | None => "" end) in
      if (Nat.eqb (List.length parts) 2
          && negb (isNaN (parseInt (nth 1 parts ""))))%bool then
        let parts' :=
          set_nth 1 (toString (incr (parseInt (nth 1 parts "")))) parts in
        Ok {| major := major parsed; minor := minor parsed;
              patch := patch parsed; prerelease := Some (join "." parts') |}
      else
        Ok {| major := major parsed; minor := minor parsed;
              patch := patch parsed; prerelease := Some "alpha.0" |}
    else
      Ok {| major := major parsed; minor := minor parsed;
            patch := incr (patch parsed); prerelease := Some "alpha.0" |}
  else Throw (Error ("Invalid bump type: " ++ bumpType)).

Definition bumpVersion (currentVersion bumpType : string) : result string :=
  try! parsed := parseVersion currentVersion in
  try! bumped := bump parsed bumpType in
  Ok (formatVersion bumped).

(* ================================================================= *)
(** ** String.prototype.replace with a replacement template *)

Definition digit_or_dot (c : ascii) : bool :=
  (is_digit c || Ascii.eqb c ".")%bool.

Definition dash_word_dot (c : ascii) : bool :=
  (Ascii.eqb c "-" || is_word c || Ascii.eqb c ".")%bool.

(** The pattern of the source-file step: [return], white space, a
    quote of either kind, one or more digits or dots, an optional
    captured run of dashes, word characters and dots, a quote, [;]. *)
Definition versionRegex : regex :=
  (Lit "return" @ Plus is_space @ Class is_quote @ Plus digit_or_dot
   @ Opt (Group 1 (Star dash_word_dot)) @ Class is_quote @ Chr ";")%re.

Definition digit_index (c : ascii) : nat := (code c - 48)%nat.

Definition capture_text (m : MatchResult) (n : nat) : string :=
  match group m n with Some s => s | None => EmptyString end.

(** GetSubstitution: the text a replacement template stands for, given
    the match [m] in [str] and the number of capture groups of the
    regular expression. *)
Fixpoint expand (ngroups : nat) (str : string) (m : MatchResult)
    (template : string) : string :=
  match template with
  | EmptyString => EmptyString
  | String "$" (String c t as t1) =>
      if Ascii.eqb c "$" then String "$" (expand ngroups str m t)
      else if Ascii.eqb c "`" then take (index m) str ++ expand ngroups str m t
      else if Ascii.eqb c "&" then matched m ++ expand ngroups str m t
      else if Ascii.eqb c "'" then
        drop (index m + String.length (matched m)) str
        ++ expand ngroups str m t
      else if is_digit c then
        let one :=
          let i := digit_index c in
          if (Nat.leb 1 i && Nat.leb i ngroups)%bool
          then capture_text m i ++ expand ngroups str m t
          else String "$" (String c (expand ngroups str m t)) in
        match t with
        | String c2 t2 =>
            if is_digit c2 then
              let i := (10 * digit_index c + digit_index c2)%nat in
              if Nat.ltb ngroups i then one
              else if Nat.leb 1 i
                   then capture_text m i ++ expand ngroups str m t2
                   else String "$" (String c (String c2
                                      (expand ngroups str m t2)))
            else one
        | EmptyString => one
        end
      else String "$" (expand ngroups str m t1)
  | String a t => String a (expand ngroups str m t)
  end.

(** [str.replace(re, template)] for a non-global [re] with [ngroups]
    capture groups: the first match only. *)
Definition replace (re : regex) (ngroups : nat) (str template : string)
    : string :=
  match exec re str with
  | None => str
  | Some m =>
      take (index m) str ++ expand ngroups str m template
      ++ drop (index m + String.length (matched m)) str
  end.

(* ================================================================= *)
(** ** The world of one run *)

Inductive file : Type := PackageJson | IndexTs.

Inductive event : Type :=
| ConsoleLog (line : string)
| WriteFile (f : file) (content : string)
| ExecSync (command : string).

Record World : Type := MkWorld {
  package_json : option string;    (* [None]: the file does not exist *)
  index_ts : option string;
  writable : file -> bool;         (* whether a write to the file succeeds *)
  trace : list event               (* effects so far, oldest first *)
}.

Definition read (w : World) (f : file) : option string :=
  match f with
  | PackageJson => package_json w
  | IndexTs => index_ts w
  end.

Definition emit (e : event) (w : World) : World :=
  MkWorld (package_json w) (index_ts w) (writable w) (trace w ++ [e]).

Definition store (f : file) (content : string) (w : World) : World :=
  match f with
  | PackageJson =>
      MkWorld (Some content) (index_ts w) (writable w)
        (trace w ++ [WriteFile f content])
  | IndexTs =>
      MkWorld (package_json w) (Some content) (writable w)
        (trace w ++ [WriteFile f content])
  end.

(** How a computation ends: normally, by [process.exit], or by an
    exception on its way to the nearest [catch]. *)
Inductive outcome (A : Type) : Type :=
| Done (a : A)
| Exit (exit_code : Z)
| Raise (e : exn).
Arguments Done {A} a.
Arguments Exit {A} exit_code.
Arguments Raise {A} e.

Definition M (A : Type) : Type := World -> outcome A * World.

Definition ret {A} (a : A) : M A := fun w => (Done a, w).

Definition mbind {A B} (m : M A) (f : A -> M B) : M B :=
  fun w =>
    match m w with
    | (Done a, w') => f a w'
    | (Exit c, w') => (Exit c, w')
    | (Raise e, w') => (Raise e, w')
    end.

Notation "x <- m ;; f" := (mbind m (fun x => f))
  (at level 61, m at next level, right associativity).
Notation "m ;; f" := (mbind m (fun _ => f))
  (at level 61, right associativity).

Definition raise {A} (e : exn) : M A := fun w => (Raise e, w).

Definition process_exit {A} (exit_code : Z) : M A :=
  fun w => (Exit exit_code, w).

Definition try_catch {A} (body : M A) (handler : exn -> M A) : M A :=
  fun w =>
    match body w with
    | (Raise e, w') => handler e w'
    | r => r
    end.

Definition lift {A} (r : result A) : M A :=
  match r with
  | Ok a => ret a
  | Throw e => raise e
  end.

Definition when (b : bool) (m : M unit) : M unit :=
  if b then m else ret tt.

Definition console_log (line : string) : M unit :=
  fun w => (Done tt, emit (ConsoleLog line) w).

Inductive color : Type :=
| reset | bright | red | green | yellow | blue | magenta | cyan.

Definition ESC : string := String "027"%char EmptyString.

Definition colors (c : color) : string :=
  match c with
  | reset => ESC ++ "[0m"
  | bright => ESC ++ "[1m"
  | red => ESC ++ "[31m"
  | green => ESC ++ "[32m"
  | yellow => ESC ++ "[33m"
  | blue => ESC ++ "[34m"
  | magenta => ESC ++ "[35m"
  | cyan => ESC ++ "[36m"
  end.

Definition colorLog (c : color) (message : string) : M unit :=
  console_log (colors c ++ message ++ colors reset).

(** A parsed manifest: its properties in order.  A property value is a
    string, [null], or something else (a number, a boolean, an array,
    an object), kept as the text it displays as. *)
Inductive value : Type :=
| VString (s : string)
| VNull
| VOther (shown : string).

Definition object : Type := list (string * value).

Fixpoint get (key : string) (o : object) : option value :=
  match o with
  | (k, v) :: r => if String.eqb k key then Some v else get key r
  | [] => None
  end.

(** [o[key] = v]: an existing property keeps its place, a new one goes
    last. *)
Fixpoint set (key : string) (v : value) (o : object) : object :=
  match o with
  | (k, v0) :: r =>
      if String.eqb k key then (k, v) :: r else (k, v0) :: set key v r
  | [] => [(key, v)]
  end.

(** What a template literal shows for a property read. *)
Definition show (x : option value) : string :=
  match x with
  | Some (VString s) => s
  | Some VNull => "null"
  | Some (VOther t) => t
  | None => "undefined"
  end.

Definition validBumpTypes : list string :=
  ["patch"; "minor"; "major"; "prepatch"; "preminor"; "premajor";
   "prerelease"].

Definition includes (l : list string) (x : string) : bool :=
  existsb (String.eqb x) l.

Section Script.

(** The platform: the working directory, the JSON codec and the
    outcome of running a command ([None]: the command fails or cannot
    be started).  Commands leave the two files alone. *)
Variable cwd : string.
Variable JSON_parse : string -> result object.
Variable JSON_stringify : object -> string.
Variable execSync : World -> string -> option string.

Definition path_of (f : file) : string :=
  match f with
  | PackageJson => cwd ++ "/package.json"
  | IndexTs => cwd ++ "/src/index.ts"
  end.

Definition existsSync (f : file) : M bool :=
  fun w => (Done (match read w f with Some _ => true | None => false end), w).

Definition readFileSync (f : file) : M string :=
  fun w =>
    match read w f with
    | Some content => (Done content, w)
    | None =>
        (Raise (Error ("ENOENT: no such file or directory, open '"
                       ++ path_of f ++ "'")), w)
    end.

Definition writeFileSync (f : file) (content : string) : M unit :=
  fun w =>
    if writable w f then (Done tt, store f content w)
    else
      (Raise (Error ("EACCES: permission denied, open '"
                     ++ path_of f ++ "'")), w).

Definition readPackageJson : M object :=
  try_catch
    (text <- readFileSync PackageJson ;;
     lift (JSON_parse text))
    (fun error =>
       colorLog red ("❌ Error reading package.json: " ++ message_of error) ;;
       process_exit 1).

Definition writePackageJson (packageJson : object) : M unit :=
  try_catch
    (writeFileSync PackageJson
       (JSON_stringify packageJson ++ String "010"%char EmptyString) ;;
     colorLog green "✅ package.json updated successfully")
    (fun error =>
       colorLog red ("❌ Error writing package.json: " ++ message_of error) ;;
       process_exit 1).

(** [bumpVersion] on what [packageJson.version] holds: [.match] exists
    on strings only, and reading it of [null] or [undefined] fails. *)
Definition bumpVersion_of (currentVersion : option value)
    (bumpType : string) : result string :=
  match currentVersion with
  | Some (VString s) => bumpVersion s bumpType
  | Some VNull =>
      Throw (TypeError "Cannot read properties of null (reading 'match')")
  | Some (VOther _) => Throw (TypeError "version.match is not a function")
  | None =>
      Throw (TypeError
               "Cannot read properties of undefined (reading 'match')")
  end.

Definition runGitCommand (command : string) : M (option string) :=
  fun w =>
    (Done (option_map trim (execSync w command)),
     emit (ExecSync command) w).

Definition checkGitStatus : M bool :=
  status <- runGitCommand "git status --porcelain" ;;
  match status with
  | None =>
      colorLog yellow "⚠️  Git not available or not a git repository" ;;
      ret false
  | Some out =>
      if Nat.ltb 0 (String.length out) then
        colorLog yellow "⚠️  Git repository has uncommitted changes:" ;;
        console_log out ;;
        ret false
      else ret true
  end.

Definition createGitTag (version : string) : M unit :=
  try_catch
    (runGitCommand "git add package.json" ;;
     runGitCommand
       ("git commit -m " ++ String DQ ("chore: bump version to " ++ version)
        ++ String DQ EmptyString) ;;
     runGitCommand ("git tag v" ++ version) ;;
     colorLog green ("✅ Created git tag: v" ++ version) ;;
     colorLog cyan "📝 To push changes and tags, run:" ;;
     colorLog cyan "   git push && git push --tags")
    (fun error =>
       colorLog red ("❌ Error creating git tag: " ++ message_of error)).

Definition showHelp : M unit :=
  colorLog cyan "📦 NPM Package Version Management Script" ;;
  console_log "" ;;
  colorLog bright "Usage:" ;;
  console_log "  node scripts/version.js <bump_type> [options]" ;;
  console_log "" ;;
  colorLog bright "Bump Types:" ;;
  console_log "  patch      1.0.0 -> 1.0.1  (Bug fixes)" ;;
  console_log "  minor      1.0.0 -> 1.1.0  (New features)" ;;
  console_log "  major      1.0.0 -> 2.0.0  (Breaking changes)" ;;
  console_log "  prepatch   1.0.0 -> 1.0.1-alpha.0" ;;
  console_log "  preminor   1.0.0 -> 1.1.0-alpha.0" ;;
  console_log "  premajor   1.0.0 -> 2.0.0-alpha.0" ;;
  console_log "  prerelease 1.0.1-alpha.0 -> 1.0.1-alpha.1" ;;
  console_log "" ;;
  colorLog bright "Commands:" ;;
  console_log "  current    Show current version" ;;
  console_log "  help       Show this help message" ;;
  console_log "" ;;
  colorLog bright "Options:" ;;
  console_log "  --no-git   Skip git operations (commit and tag)" ;;
  console_log "  --dry-run  Show what would happen without making changes" ;;
  console_log "" ;;
  colorLog bright "Examples:" ;;
  console_log "  node scripts/version.js patch" ;;
  console_log "  node scripts/version.js minor --no-git" ;;
  console_log "  node scripts/version.js major --dry-run".

(** The source-file step of [main]. *)
Definition updateSource (newVersion : string) : M unit :=
  present <- existsSync IndexTs ;;
  when present
    (content <- readFileSync IndexTs ;;
     when (test versionRegex content)
       (writeFileSync IndexTs
          (replace versionRegex 1 content
             ("return " ++ String DQ (newVersion ++ String DQ ";"))) ;;
        colorLog green "✅ Updated version in src/index.ts")).

(** [main], with [args = process.argv.slice(2)].  The first test is
    [!bumpType || bumpType === 'help']: no argument, or an empty one,
    or [help]. *)
Definition main (args : list string) : M unit :=
  let noGit := includes args "--no-git" in
  let dryRun := includes args "--dry-run" in
  match nth_error args 0 with
  | None => showHelp
  | Some bumpType =>
    if (String.eqb bumpType "" || String.eqb bumpType "help")%bool
    then showHelp
    else
      packageJson <- readPackageJson ;;
      let currentVersion := get "version" packageJson in
      if String.eqb bumpType "current" then
        colorLog cyan ("📦 Current version: " ++ show currentVersion)
      else if negb (includes validBumpTypes bumpType) then
        colorLog red ("❌ Invalid bump type: " ++ bumpType) ;;
        colorLog yellow ("Valid types: " ++ join ", " validBumpTypes) ;;
        process_exit 1
      else
        try_catch
          (newVersion <- lift (bumpVersion_of currentVersion bumpType) ;;
           colorLog cyan ("📦 Version change: " ++ show currentVersion
                          ++ " -> " ++ newVersion) ;;
           if dryRun then
             colorLog yellow "🔍 Dry run mode - no changes made"
           else
             canUseGit <- (if negb noGit then checkGitStatus
                           else ret false) ;;
             writePackageJson (set "version" (VString newVersion)
                                 packageJson) ;;
             updateSource newVersion ;;
             when canUseGit (createGitTag newVersion) ;;
             colorLog green ("🎉 Successfully bumped version to "
                             ++ newVersion) ;;
             colorLog cyan "📝 Next steps:" ;;
             console_log "1. Run tests: npm test" ;;
             console_log "2. Build package: npm run build" ;;
             console_log "3. Publish: npm publish")
          (fun error =>
             colorLog red ("❌ Error: " ++ message_of error) ;;
             process_exit 1)
  end.

(** The process: the final world and the exit code. *)
Definition run (args : list string) (w : World) : World * Z :=
  match main args w with
  | (Done _, w') => (w', 0)
  | (Exit c, w') => (w', c)
  | (Raise _, w') => (w', 1)
  end.

End Script.

(* ================================================================= *)
(** ** Notions the statements use *)

(** A non-negative integer a Number holds exactly. *)
Definition is_count (n : Number) : bool :=
  match n with
  | Int z => ((0 <=? z) && (z <=? MAX_SAFE_INTEGER))%bool
  | NaN => false
  end.

(** A valid Version: three counts, and a prerelease that is absent or a
    non-empty string. *)
Definition valid_version (v : Version) : bool :=
  (is_count (major v) && is_count (minor v) && is_count (patch v)
   && match prerelease v with
      | None => true
      | Some p => truthy (Some p)
      end)%bool.

(** A non-empty run of decimal digits. *)
Definition is_digits (s : string) : bool :=
  match s with
  | EmptyString => false
  | String _ _ => all_chars is_digit s
  end.

(** A run of digits with no superfluous leading zero. *)
Definition canonical (s : string) : bool :=
  match s with
  | String "0" (String _ _) => false
  | _ => is_digits s
  end.

(** The text of a prerelease suffix: non-empty, no line terminator. *)
Definition is_suffix_text (p : string) : bool :=
  match p with
  | EmptyString => false
  | String _ _ => all_chars dot p
  end.

(** The strings [version_re] describes. *)
Inductive version_text : string -> Prop :=
| version_text_plain d1 d2 d3 :
    is_digits d1 = true -> is_digits d2 = true -> is_digits d3 = true ->
    version_text (d1 ++ "." ++ d2 ++ "." ++ d3)
| version_text_pre d1 d2 d3 p :
    is_digits d1 = true -> is_digits d2 = true -> is_digits d3 = true ->
    is_suffix_text p = true ->
    version_text (d1 ++ "." ++ d2 ++ "." ++ d3 ++ "-" ++ p).

(** Reading a version text from left to right without backtracking;
    [exec version_re] computes the same groups (lemma
    [exec_version_re]). *)
Definition scan_digits (s : string) : option (string * string) :=
  match take_while is_digit s with
  | EmptyString => None
  | ds => Some (ds, drop_while is_digit s)
  end.

Definition expect (c : ascii) (s : string) : option string :=
  match s with
  | String a t => if Ascii.eqb a c then Some t else None
  | EmptyString => None
  end.

Definition scan_suffix (s : string) : option (option string) :=
  match s with
  | EmptyString => Some None
  | String a p =>
      if (Ascii.eqb a "-" && is_suffix_text p)%bool then Some (Some p)
      else None
  end.

Definition scan_version (s : string)
    : option (string * string * string * option string) :=
  match scan_digits s with
  | None => None
  | Some (d1, r1) =>
  match expect "." r1 with
  | None => None
  | Some r2 =>
  match scan_digits r2 with
  | None => None
  | Some (d2, r3) =>
  match expect "." r3 with
  | None => None
  | Some r4 =>
  match scan_digits r4 with
  | None => None
  | Some (d3, r5) =>
  match scan_suffix r5 with
  | None => None
  | Some pre => Some (d1, d2, d3, pre)
  end end end end end end.

Definition groups_of (x : string * string * string * option string)
    : list (nat * string) :=
  let '(d1, d2, d3, pre) := x in
  match pre with
  | Some p => [(4%nat, p); (3%nat, d3); (2%nat, d2); (1%nat, d1)]
  | None => [(3%nat, d3); (2%nat, d2); (1%nat, d1)]
  end.

(** The grammar of the specification, [\d+\.\d+\.\d+(-[^\s]+)?], matched
    against the whole string. *)
Definition non_space (c : ascii) : bool := negb (is_space c).

Definition spec_version_re : regex :=
  (Bol @ Plus is_digit @ Chr "." @ Plus is_digit @ Chr "." @ Plus is_digit
   @ Opt (Chr "-" @ Plus non_space) @ Eol)%re.

(** The prerelease rule in the words of the specification: a prerelease
    of the exact shape label.integer has its integer incremented; any
    other version gets a patch increment and the seed. *)
Definition spec_bump_prerelease (v : Version) : Version :=
  let fallback :=
    {| major := major v; minor := minor v; patch := incr (patch v);
       prerelease := Some "alpha.0" |} in
  match prerelease v with
  | Some p =>
      match split "." p with
      | [label; count] =>
          if is_digits count then
            {| major := major v; minor := minor v; patch := patch v;
               prerelease :=
                 Some (label ++ "." ++ toString (incr (parseInt count))) |}
          else fallback
      | _ => fallback
      end
  | None => fallback
  end.

(** Between two worlds nothing happened but console output. *)
Definition only_logs (w w' : World) : Prop :=
  package_json w' = package_json w /\
  index_ts w' = index_ts w /\
  exists lines, trace w' = (trace w ++ map ConsoleLog lines)%list.

(** The commands among the events. *)
Fixpoint commands (es : list event) : list string :=
  match es with
  | ExecSync c :: r => c :: commands r
  | _ :: r => commands r
  | [] => []
  end.

(* ================================================================= *)
(** ** Auxiliary notions of the proofs *)

(** A run of [p]-characters followed by a text that does not start with
    one is split at the junction. *)
Definition stops (p : ascii -> bool) (r : string) : Prop :=
  match r with
  | String c _ => p c = false
  | EmptyString => True
  end.

(** What is left of the input and what was captured, without the
    position. *)
Definition view (st : mstate) : string * list (nat * string) :=
  (rest st, caps st).

(** The optional suffix and the end of the input. *)
Definition suffix_re : regex :=
  (Opt (Chr "-" @ Group 4 (Plus dot)) @ Eol)%re.

(** The version pattern after [^], and what follows its first and
    second dot. *)
Definition tail3_re : regex := (Group 3 (Plus is_digit) @ suffix_re)%re.

Definition tail2_re : regex :=
  (Group 2 (Plus is_digit) @ Chr "." @ tail3_re)%re.

Definition tail1_re : regex :=
  (Group 1 (Plus is_digit) @ Chr "." @ tail2_re)%re.

(** What [formatVersion] appends for a prerelease. *)
Definition suffix_of (pre : option string) : string :=
  match pre with
  | Some p => "-" ++ p
  | None => ""
  end.

(** A prerelease without line terminator. *)
Definition on_one_line (pre : option string) : bool :=
  match pre with
  | Some p => all_chars dot p
  | None => true
  end.

(** The three numeric groups of an accepted text carry no superfluous
    leading zero. *)
Definition numerals_canonical (s : string) : bool :=
  match exec version_re s with
  | Some m =>
      (canonical (capture_text m 1) && canonical (capture_text m 2)
       && canonical (capture_text m 3))%bool
  | None => false
  end.

(** The line feed. *)
Definition LF : string := String "010"%char EmptyString.

(** The shape test of the prerelease bump: two parts around one dot, the
    second of which [parseInt] reads as an integer. *)
Definition counter_of (q : string) : option (string * Z) :=
  match split "." q with
  | [label; count] =>
      match parseInt count with
      | Int n => Some (label, n)
      | NaN => None
      end
  | _ => None
  end.

Definition not_dot (c : ascii) : bool := negb (Ascii.eqb c ".").

(** An integer a Number holds exactly. *)
Definition is_safe (n : Z) : bool :=
  ((- MAX_SAFE_INTEGER <=? n) && (n <=? MAX_SAFE_INTEGER))%bool.



(** The lines [showHelp] prints. *)
Definition help_lines : list string :=
  [colors cyan ++ "📦 NPM Package Version Management Script" ++ colors reset;
   "";
   colors bright ++ "Usage:" ++ colors reset;
   "  node scripts/version.js <bump_type> [options]";
   "";
   colors bright ++ "Bump Types:" ++ colors reset;
   "  patch      1.0.0 -> 1.0.1  (Bug fixes)";
   "  minor      1.0.0 -> 1.1.0  (New features)";
   "  major      1.0.0 -> 2.0.0  (Breaking changes)";
   "  prepatch   1.0.0 -> 1.0.1-alpha.0";
   "  preminor   1.0.0 -> 1.1.0-alpha.0";
   "  premajor   1.0.0 -> 2.0.0-alpha.0";
   "  prerelease 1.0.1-alpha.0 -> 1.0.1-alpha.1";
   "";
   colors bright ++ "Commands:" ++ colors reset;
   "  current    Show current version";
   "  help       Show this help message";
   "";
   colors bright ++ "Options:" ++ colors reset;
   "  --no-git   Skip git operations (commit and tag)";
   "  --dry-run  Show what would happen without making changes";
   "";
   colors bright ++ "Examples:" ++ colors reset;
   "  node scripts/version.js patch";
   "  node scripts/version.js minor --no-git";
   "  node scripts/version.js major --dry-run"].

(** The counter of a prerelease, if it has one, is an integer a Number
    holds exactly. *)
Definition safe_counter (pre : option string) : bool :=
  match pre with
  | Some q =>
      match counter_of q with
      | Some (_, n) => is_safe n
      | None => true
      end
  | None => true
  end.

(** A computation that only writes to the console. *)
Definition quiet {A} (m : M A) : Prop := forall w, only_logs w (snd (m w)).

Definition no_dollar (c : ascii) : bool := negb (Ascii.eqb c "$").

(** Lexicographic order on (major, minor, patch). *)
Definition lex_lt (a b : Z * Z * Z) : Prop :=
  let '(a1, a2, a3) := a in
  let '(b1, b2, b3) := b in
  a1 < b1 \/ (a1 = b1 /\ (a2 < b2 \/ (a2 = b2 /\ a3 < b3))).

(** [bumpVersion] applied [n] times with the same bump type, each pass on
    the text the previous one returned. *)
Fixpoint bump_times (n : nat) (bumpType s : string) : result string :=
  match n with
  | O => Ok s
  | S k => try! s' := bump_times k bumpType s in bumpVersion s' bumpType
  end.

(** The effects of a run other than console output, in order. *)
Fixpoint effects (es : list event) : list event :=
  match es with
  | ConsoleLog _ :: r => effects r
  | e :: r => e :: effects r
  | [] => []
  end.

(** A computation that runs no command. *)
Definition silent {A} (m : M A) : Prop :=
  forall w, commands (trace (snd (m w))) = commands (trace w).

(** What [checkGitStatus] answers for an outcome of
    [git status --porcelain]. *)
Definition tree_clean (status : option string) : bool :=
  match option_map trim status with
  | Some out => negb (Nat.ltb 0 (String.length out))
  | None => false
  end.

(** The statement the source-file step writes. *)
Definition return_statement (newVersion : string) : string :=
  "return " ++ String DQ (newVersion ++ String DQ ";").

(** The text [writePackageJson] stores for a manifest. *)
Definition manifest_text (JSON_stringify : object -> string)
    (newVersion : string) (packageJson : object) : string :=
  JSON_stringify (set "version" (VString newVersion) packageJson) ++ LF.

(** The write of the source-file step, if any. *)
Definition source_write (newVersion : string) (source : option string)
    : list event :=
  match source with
  | Some content =>
      if test versionRegex content
      then [WriteFile IndexTs
              (replace versionRegex 1 content (return_statement newVersion))]
      else []
  | None => []
  end.

(** The three commands of [createGitTag]. *)
Definition tag_commands (version : string) : list event :=
  [ExecSync "git add package.json";
   ExecSync ("git commit -m "
             ++ String DQ ("chore: bump version to " ++ version)
             ++ String DQ EmptyString)%string;
   ExecSync ("git tag v" ++ version)%string].

(** The exception [readPackageJson] catches, if any. *)
Definition manifest_error (cwd : string)
    (JSON_parse : string -> result object) (w : World) : option exn :=
  match package_json w with
  | None =>
      Some (Error ("ENOENT: no such file or directory, open '"
                   ++ path_of cwd PackageJson ++ "'"))
  | Some text =>
      match JSON_parse text with
      | Throw e => Some e
      | Ok _ => None
      end
  end.

(** A version text the source pattern can find again: it starts with a
    digit or a dot and goes on with dashes, word characters and dots. *)
Definition is_plain_version (v : string) : bool :=
  match v with
  | String c t => (digit_or_dot c && all_chars dash_word_dot t)%bool
  | EmptyString => false
  end.

(** The text of src/index.ts, with [literal] between the quotes of the
    statement of [getVersion]; the file of the repository is
    [index_ts_text "1.0.0"]. *)
Definition index_ts_text (literal : string) : string :=
  "/**
 * A simple greeting function
 * @param name - The name to greet
 * @returns A greeting message
 */
export function greet(name: string): string {
  return `Hello, ${name}!`;
}

/**
 * A simple math utility
 * @param a - First number
 * @param b - Second number
 * @returns The sum of a and b
 */
export function add(a: number, b: number): number {
  return a + b;
}

/**
 * Get the current version of the package
 * @returns The package version
 */
export function getVersion(): string {
  return "
  ++ String DQ (literal ++ String DQ ";
}

// Default export
export default {
  greet,
  add,
  getVersion
};
").

(** [[\w\d\-]] *)
Definition word_or_dash (c : ascii) : bool :=
  (is_word c || is_digit c || Ascii.eqb c "-")%bool.

(** A prerelease the pattern of the unit test accepts after a dash: a
    non-empty tag of word characters and dashes, alone or followed by a
    dot and a run of digits. *)
Definition is_tag (label : string) : bool :=
  match label with
  | EmptyString => false
  | String _ _ => all_chars word_or_dash label
  end.

Definition is_tagged (pre : option string) : bool :=
  match pre with
  | None => true
  | Some q =>
      match split "." q with
      | [label] => is_tag label
      | [label; count] => (is_tag label && is_digits count)%bool
      | _ => false
      end
  end.

(** The pattern of the unit test of [getVersion] in index.test.ts:
    three runs of digits separated by dots, then optionally a dash, a
    run of word characters and dashes, and optionally a dot and a run
    of digits. *)
Definition getVersion_test_re : regex :=
  (Bol @ Plus is_digit @ Chr "." @ Plus is_digit @ Chr "." @ Plus is_digit
   @ Opt (Group 1 (Chr "-" @ Plus word_or_dash
                   @ Opt (Group 2 (Chr "." @ Plus is_digit))))
   @ Eol)%re.

(** A computation that prints [lines] and does nothing else, whatever
    the world. *)
Definition prints (m : M unit) (lines : list string) : Prop :=
  forall w,
    m w = (Done tt,
           MkWorld (package_json w) (index_ts w) (writable w)
             (trace w ++ map ConsoleLog lines)).

(** No match of [re] starts within [a] in the text [a ++ r], [a]
    standing at position [i]. *)
Fixpoint no_match_in (re : regex) (a r : string) (i : nat) : bool :=
  match a with
  | EmptyString => true
  | String _ t =>
      match rmatch re (MState (a ++ r) i []) Some with
      | Some _ => false
      | None => no_match_in re t r (S i)
      end
  end.

(** A version text with a tag: three runs of digits separated by dots,
    then nothing, or a dash and a tag of word characters and dashes,
    alone or followed by a dot and a run of digits. *)
Definition tagged_text (s : string) : Prop :=
  exists d1 d2 d3 sfx,
    is_digits d1 = true /\ is_digits d2 = true /\ is_digits d3 = true /\
    (sfx = "" \/
     (exists label tl,
         is_tag label = true /\
         (tl = "" \/ (exists ds, is_digits ds = true /\ tl = "." ++ ds)) /\
         sfx = "-" ++ label ++ tl)) /\
    s = d1 ++ "." ++ d2 ++ "." ++ d3 ++ sfx.

(** A continuation that accepts the end of the input at every position
    after [n]. *)
Definition accepting (k : cont) (n : nat) : Prop :=
  forall j cs, (n < j)%nat -> exists st, k (MState "" j cs) = Some st.

(* ================================================================= *)
(** * Properties *)

(** ** Characters *)

Ltac ascii_cases c :=
  destruct c as [[] [] [] [] [] [] [] []]; vm_compute; try congruence; auto.

Lemma digit_not_dot c : is_digit c = true -> Ascii.eqb c "." = false.
Proof. ascii_cases c. Qed.

Lemma digit_not_dash c : is_digit c = true -> Ascii.eqb c "-" = false.
Proof. ascii_cases c. Qed.

Lemma digit_radix10 c : is_digit c = true -> is_radix_digit 10 c = true.
Proof. ascii_cases c. Qed.

(** ** Strings *)

Lemma append_nil_r (s : string) : s ++ "" = s.
Proof. induction s; simpl; congruence. Qed.

Lemma append_assoc (a b c : string) : (a ++ b) ++ c = a ++ b ++ c.
Proof. induction a; simpl; congruence. Qed.

Lemma take_drop (n : nat) (s : string) : take n s ++ drop n s = s.
Proof.
  revert s; induction n as [|n IH]; intros [|c t]; simpl; auto.
  unfold take in IH. now rewrite IH.
Qed.

Lemma drop_drop (i k : nat) (s : string) : drop (i + k) s = drop k (drop i s).
Proof.
  revert s; induction i as [|i IH]; intros s; simpl; auto.
  destruct s as [|c t]; simpl; auto. now destruct k.
Qed.

Lemma take_length_append (a b : string) : take (String.length a) (a ++ b) = a.
Proof. unfold take. induction a; simpl; [now destruct b | congruence]. Qed.

Lemma take_while_drop_while p s : take_while p s ++ drop_while p s = s.
Proof. induction s as [|c t IH]; simpl; auto. destruct (p c); simpl; congruence. Qed.

Lemma all_take_while p s : all_chars p (take_while p s) = true.
Proof. induction s as [|c t IH]; simpl; auto. destruct (p c) eqn:E; simpl; auto. now rewrite E. Qed.

Lemma take_while_all p s : all_chars p s = true -> take_while p s = s.
Proof.
  induction s as [|c t IH]; simpl; auto.
  destruct (p c); simpl; [intros; f_equal; auto | discriminate].
Qed.

Lemma drop_while_stops p s : stops p (drop_while p s).
Proof. induction s as [|c t IH]; simpl; auto. destruct (p c) eqn:E; simpl; auto. Qed.

Lemma take_while_app p a r :
  all_chars p a = true -> stops p r -> take_while p (a ++ r) = a.
Proof.
  induction a as [|c t IH]; simpl.
  - intros _. destruct r as [|c r]; simpl; auto. now intros ->.
  - destruct (p c); simpl; [intros; f_equal; auto | discriminate].
Qed.

Lemma drop_while_app p a r :
  all_chars p a = true -> stops p r -> drop_while p (a ++ r) = r.
Proof.
  induction a as [|c t IH]; simpl.
  - intros _. destruct r as [|c r]; simpl; auto. now intros ->.
  - destruct (p c); simpl; [auto | discriminate].
Qed.

Lemma all_chars_app p a b :
  all_chars p (a ++ b) = (all_chars p a && all_chars p b)%bool.
Proof. induction a as [|c t IH]; simpl; auto. rewrite IH. now destruct (p c). Qed.

Lemma all_chars_impl (p q : ascii -> bool) s :
  (forall c, p c = true -> q c = true) ->
  all_chars p s = true -> all_chars q s = true.
Proof.
  intros H. induction s as [|c t IH]; simpl; auto.
  intros E. apply andb_true_iff in E as [E1 E2].
  rewrite (H _ E1). simpl. auto.
Qed.

(** ** Numbers and their decimal text *)

Lemma digits_value_cons radix acc c d t :
  digit_value c = Some d ->
  digits_value radix acc (String c t) = digits_value radix (radix * acc + d) t.
Proof. intros H. simpl. now rewrite H. Qed.

Ltac step_digit :=
  match goal with
  | |- context [digits_value ?r ?a (String ?c ?t)] =>
      let v := eval vm_compute in (digit_value c) in
      match v with
      | Some ?d =>
          rewrite (digits_value_cons r a c d t) by (vm_compute; reflexivity)
      end
  end.

Lemma digits_value_of_uint_acc d (acc : positive) :
  digits_value 10 (Zpos acc) (NilEmpty.string_of_uint d)
  = Zpos (Pos.of_uint_acc d acc).
Proof.
  revert acc; induction d; intros acc; simpl NilEmpty.string_of_uint;
    [reflexivity | ..];
    step_digit; cbn [Pos.of_uint_acc]; rewrite <- IHd; f_equal; lia.
Qed.

Lemma digits_value_string_of_uint d :
  digits_value 10 0 (NilEmpty.string_of_uint d) = Z.of_N (Pos.of_uint d).
Proof.
  induction d; simpl NilEmpty.string_of_uint;
    [reflexivity | ..];
    step_digit; cbn [Pos.of_uint]; [exact IHd | ..];
    apply (digits_value_of_uint_acc d).
Qed.

Lemma all_digits_string_of_uint d :
  all_chars is_digit (NilEmpty.string_of_uint d) = true.
Proof. induction d; simpl; auto. Qed.

Lemma string_of_uint_nonnil d :
  d <> Nil -> NilZero.string_of_uint d = NilEmpty.string_of_uint d.
Proof. destruct d; auto. congruence. Qed.

Lemma is_digits_string_of_uint d :
  is_digits (NilZero.string_of_uint d) = true.
Proof.
  destruct d; try reflexivity;
    rewrite string_of_uint_nonnil by discriminate;
    exact (all_digits_string_of_uint _).
Qed.

Lemma is_digits_digits_of n : is_digits (digits_of n) = true.
Proof. apply is_digits_string_of_uint. Qed.

(** Reading back the digits of a count gives the count. *)
Lemma digits_value_digits_of n :
  0 <= n -> digits_value 10 0 (digits_of n) = n.
Proof.
  intros Hn. unfold digits_of. destruct n as [|p|p]; [reflexivity | | lia].
  simpl Z.to_N. simpl N.to_uint.
  rewrite string_of_uint_nonnil by apply Unsigned.to_uint_nonnil.
  rewrite digits_value_string_of_uint.
  now rewrite DecimalPos.Unsigned.of_to.
Qed.

Lemma is_digits_inv s :
  is_digits s = true ->
  exists c t, s = String c t /\ is_digit c = true
              /\ all_chars is_digit t = true.
Proof.
  destruct s as [|c t]; [discriminate|]. simpl.
  intros H. apply andb_true_iff in H. eauto.
Qed.

Lemma is_digits_all s : is_digits s = true -> all_chars is_digit s = true.
Proof. destruct s; [discriminate | auto]. Qed.

(** On a run of digits [parseInt] reads no sign and no radix prefix. *)
Lemma parseInt_digits s :
  is_digits s = true -> parseInt s = Int (digits_value 10 0 s).
Proof.
  intros H. pose proof (is_digits_all _ H) as Hall.
  assert (Htw : take_while (is_radix_digit 10) s = s).
  { apply take_while_all. revert Hall. apply all_chars_impl, digit_radix10. }
  destruct (is_digits_inv _ H) as (c & t & -> & Hc & Ht).
  assert (Hstep : parseInt (String c t) =
                  match take_while (is_radix_digit 10) (String c t) with
                  | EmptyString => NaN
                  | ds => Int (1 * digits_value 10 0 ds)
                  end).
  { clear Htw H Hall.
    destruct t as [|c2 t2].
    - destruct c as [[] [] [] [] [] [] [] []]; try discriminate Hc;
        reflexivity.
    - simpl in Ht. apply andb_true_iff in Ht as [Hc2 _].
      destruct c as [[] [] [] [] [] [] [] []]; try discriminate Hc;
        try reflexivity.
      destruct c2 as [[] [] [] [] [] [] [] []]; try discriminate Hc2;
        reflexivity. }
  rewrite Hstep, Htw. f_equal. lia.
Qed.

Lemma uint_of_digits s :
  all_chars is_digit s = true ->
  exists d, NilEmpty.uint_of_string s = Some d.
Proof.
  induction s as [|c t IH]; simpl; [eauto|].
  intros H. apply andb_true_iff in H as [Hc Ht].
  destruct (IH Ht) as [d ->].
  destruct c as [[] [] [] [] [] [] [] []]; try discriminate Hc;
    simpl; eauto.
Qed.

(** Printing the value of a run of digits without a superfluous leading
    zero gives the run back. *)
Lemma digits_of_digits_value s :
  canonical s = true -> digits_of (digits_value 10 0 s) = s.
Proof.
  intros Hc.
  assert (Hd : is_digits s = true).
  { destruct s as [|c t]; [discriminate|].
    destruct c as [[] [] [] [] [] [] [] []]; destruct t; auto;
      discriminate. }
  destruct (uint_of_digits s (is_digits_all _ Hd)) as [d Hu].
  pose proof (NilEmpty.sus _ _ Hu) as Hs.
  rewrite <- Hs at 1. rewrite digits_value_string_of_uint.
  unfold digits_of. rewrite N2Z.id.
  change (N.to_uint (Pos.of_uint d)) with (N.to_uint (N.of_uint d)).
  rewrite DecimalN.Unsigned.to_of.
  subst s. destruct d; try discriminate Hd; try reflexivity.
  destruct d; try reflexivity; discriminate Hc.
Qed.

(** ** The matcher on the version pattern *)

Lemma take_take_while p s :
  take (String.length (take_while p s)) s = take_while p s.
Proof.
  rewrite <- (take_while_drop_while p s) at 2. apply take_length_append.
Qed.

Lemma drop_while_all p s : all_chars p s = true -> drop_while p s = "".
Proof.
  induction s as [|c t IH]; simpl; auto.
  destruct (p c); simpl; [auto | discriminate].
Qed.

Lemma drop_while_nil_all p s : drop_while p s = "" -> all_chars p s = true.
Proof.
  induction s as [|c t IH]; simpl; auto.
  destruct (p c); simpl; [auto | discriminate].
Qed.

(** When the continuation refuses every input that still starts with a
    character of the class, the greedy run is the whole run. *)
Lemma star_greedy p s i cs k :
  (forall c t j, p c = true -> k (MState (String c t) j cs) = None) ->
  star p s i cs k
  = k (MState (drop_while p s) (i + String.length (take_while p s)) cs).
Proof.
  intros Hk. revert i. induction s as [|c t IH]; intros i; simpl.
  - now rewrite Nat.add_0_r.
  - destruct (p c) eqn:E; simpl.
    + rewrite IH, (Hk _ _ _ E), Nat.add_succ_r. now destruct (k _).
    + now rewrite Nat.add_0_r.
Qed.

Lemma plus_greedy p s i cs k :
  (forall c t j, p c = true -> k (MState (String c t) j cs) = None) ->
  rmatch (Plus p) (MState s i cs) k
  = match take_while p s with
    | EmptyString => None
    | String _ _ as ds =>
        k (MState (drop_while p s) (i + String.length ds) cs)
    end.
Proof.
  intros Hk. destruct s as [|c t]; simpl; auto.
  destruct (p c) eqn:E; auto.
  rewrite star_greedy by exact Hk. simpl. now rewrite Nat.add_succ_r.
Qed.

Lemma group_plus p n s i cs k :
  (forall c t j cs', p c = true -> k (MState (String c t) j cs') = None) ->
  rmatch (Group n (Plus p)) (MState s i cs) k
  = match take_while p s with
    | EmptyString => None
    | String _ _ as ds =>
        k (MState (drop_while p s) (i + String.length ds) ((n, ds) :: cs))
    end.
Proof.
  intros Hk.
  change (rmatch (Group n (Plus p)) (MState s i cs) k)
    with (rmatch (Plus p) (MState s i cs)
            (fun st' =>
               k (MState (rest st') (pos st')
                    ((n, take (pos st' - i) s) :: caps st')))).
  rewrite plus_greedy.
  - destruct (take_while p s) as [|c ds] eqn:E; auto.
    cbn [rest pos caps]. rewrite <- E.
    replace (i + String.length (take_while p s) - i)%nat
      with (String.length (take_while p s)) by lia.
    now rewrite take_take_while.
  - intros c t j E. apply Hk, E.
Qed.

Lemma view_none (x : option mstate) : option_map view x = None -> x = None.
Proof. now destruct x. Qed.

Lemma rmatch_opt r' re st k :
  rmatch (Opt r' @ re) st k
  = match rmatch r' st
            (fun st' => if Nat.eqb (pos st') (pos st) then None
                        else rmatch re st' k)
    with
    | Some x => Some x
    | None => rmatch re st k
    end.
Proof. reflexivity. Qed.

Lemma rmatch_chr_k c re r j cs k :
  rmatch (Chr c @ re) (MState r j cs) k
  = match expect c r with
    | Some r' => rmatch re (MState r' (S j) cs) k
    | None => None
    end.
Proof.
  cbn [rmatch rest pos caps]. destruct r as [|a t]; [reflexivity|].
  cbn [expect]. now destruct (Ascii.eqb a c).
Qed.

Lemma rmatch_eol r j cs :
  rmatch Eol (MState r j cs) Some
  = match r with
    | EmptyString => Some (MState r j cs)
    | String _ _ => None
    end.
Proof. reflexivity. Qed.

Lemma rmatch_suffix r j cs :
  option_map view (rmatch suffix_re (MState r j cs) Some)
  = option_map
      (fun pre => ("", match pre with
                       | Some p => (4%nat, p) :: cs
                       | None => cs
                       end))
      (scan_suffix r).
Proof.
  unfold suffix_re. rewrite rmatch_opt, rmatch_chr_k, rmatch_eol.
  destruct r as [|a t]; [reflexivity|]. cbn [scan_suffix expect].
  destruct (Ascii.eqb a "-") eqn:Ea; cbn [andb]; [|reflexivity].
  rewrite group_plus.
  - unfold is_suffix_text.
    destruct t as [|c t]; [reflexivity|].
    destruct (all_chars dot (String c t)) eqn:Eall.
    + rewrite (take_while_all _ _ Eall), (drop_while_all _ _ Eall).
      cbn [rest pos caps].
      destruct (Nat.eqb_spec (S j + String.length (String c t)) j);
        [lia | reflexivity].
    + destruct (take_while dot (String c t)) as [|c' ds] eqn:Etw;
        [reflexivity|].
      cbn [rest pos caps].
      destruct (Nat.eqb (S j + String.length (String c' ds)) j);
        [reflexivity|].
      rewrite rmatch_eol.
      destruct (drop_while dot (String c t)) as [|c'' r'] eqn:Edw;
        [|reflexivity].
      apply drop_while_nil_all in Edw. congruence.
  - intros c t' j' cs' _. cbn [rest pos caps].
    now destruct (Nat.eqb j' j).
Qed.

Lemma rmatch_suffix_digit c t j cs :
  is_digit c = true -> rmatch suffix_re (MState (String c t) j cs) Some = None.
Proof.
  intros Hc. apply view_none. rewrite rmatch_suffix. cbn [scan_suffix].
  now rewrite (digit_not_dash _ Hc).
Qed.

Lemma rmatch_chr_dot_digit re c t j cs :
  is_digit c = true ->
  rmatch (Chr "." @ re) (MState (String c t) j cs) Some = None.
Proof.
  intros Hc. rewrite rmatch_chr_k. cbn [expect].
  now rewrite (digit_not_dot _ Hc).
Qed.

Lemma rmatch_group_digits n re r j cs :
  (forall c t j' cs', is_digit c = true ->
                      rmatch re (MState (String c t) j' cs') Some = None) ->
  rmatch (Group n (Plus is_digit) @ re) (MState r j cs) Some
  = match scan_digits r with
    | Some (ds, r') =>
        rmatch re (MState r' (j + String.length ds) ((n, ds) :: cs)) Some
    | None => None
    end.
Proof.
  intros Hre.
  change (rmatch (Group n (Plus is_digit) @ re) (MState r j cs) Some)
    with (rmatch (Group n (Plus is_digit)) (MState r j cs)
            (fun st1 => rmatch re st1 Some)).
  rewrite group_plus by exact Hre.
  unfold scan_digits. now destruct (take_while is_digit r).
Qed.

Lemma rmatch_tail1 s :
  option_map view (rmatch tail1_re (MState s 0 []) Some)
  = option_map (fun x => ("", groups_of x)) (scan_version s).
Proof.
  unfold tail1_re, scan_version.
  rewrite rmatch_group_digits by (intros; now apply rmatch_chr_dot_digit).
  destruct (scan_digits s) as [[d1 r1]|]; [|reflexivity].
  rewrite rmatch_chr_k. destruct (expect "." r1) as [r2|]; [|reflexivity].
  unfold tail2_re.
  rewrite rmatch_group_digits by (intros; now apply rmatch_chr_dot_digit).
  destruct (scan_digits r2) as [[d2 r3]|]; [|reflexivity].
  rewrite rmatch_chr_k. destruct (expect "." r3) as [r4|]; [|reflexivity].
  unfold tail3_re.
  rewrite rmatch_group_digits by (intros; now apply rmatch_suffix_digit).
  destruct (scan_digits r4) as [[d3 r5]|]; [|reflexivity].
  rewrite rmatch_suffix.
  destruct (scan_suffix r5) as [[p|]|]; reflexivity.
Qed.

Lemma search_anchored re s i : search (Bol @ re) s (S i) = None.
Proof.
  revert i. induction s as [|c t IH]; intros i; simpl; auto.
Qed.

(** [exec version_re] succeeds exactly when the left-to-right reading
    does, with the same groups. *)
Lemma exec_version_re s :
  option_map captures (exec version_re s)
  = option_map groups_of (scan_version s).
Proof.
  pose proof (rmatch_tail1 s) as H.
  unfold exec.
  assert (Hs : search version_re s 0
               = match rmatch tail1_re (MState s 0 []) Some with
                 | Some st => Some (0%nat, st)
                 | None => None
                 end).
  { destruct s as [|c t].
    - cbn [search]. change (rmatch version_re (MState "" 0 []) Some)
        with (rmatch tail1_re (MState "" 0 []) Some).
      now destruct (rmatch tail1_re _ _).
    - cbn [search]. change (rmatch version_re (MState (String c t) 0 []) Some)
        with (rmatch tail1_re (MState (String c t) 0 []) Some).
      destruct (rmatch tail1_re _ _); auto.
      apply (search_anchored _ t 0). }
  rewrite Hs. destruct (rmatch tail1_re _ _) as [st|];
    destruct (scan_version s) as [x|]; cbn [option_map] in *;
    try discriminate H; try reflexivity.
  injection H as H. unfold view in H. cbn [captures]. congruence.
Qed.

(** ** parseVersion through the left-to-right reading *)

Lemma scan_digits_inv s ds r :
  scan_digits s = Some (ds, r) ->
  is_digits ds = true /\ s = ds ++ r /\ stops is_digit r.
Proof.
  unfold scan_digits. intros H.
  pose proof (take_while_drop_while is_digit s) as Hsplit.
  pose proof (all_take_while is_digit s) as Hall.
  pose proof (drop_while_stops is_digit s) as Hstop.
  destruct (take_while is_digit s) as [|c t] eqn:E; [discriminate|].
  injection H as <- <-. repeat split; auto.
Qed.

Lemma scan_digits_app ds r :
  is_digits ds = true -> stops is_digit r ->
  scan_digits (ds ++ r) = Some (ds, r).
Proof.
  intros Hd Hr. unfold scan_digits.
  rewrite (take_while_app _ _ _ (is_digits_all _ Hd) Hr).
  rewrite (drop_while_app _ _ _ (is_digits_all _ Hd) Hr).
  destruct ds; [discriminate | reflexivity].
Qed.

Lemma expect_inv c s r : expect c s = Some r -> s = String c r.
Proof.
  destruct s as [|a t]; [discriminate|]. simpl.
  destruct (Ascii.eqb_spec a c); [|discriminate]. now intros [= <-]; subst.
Qed.

Lemma scan_suffix_inv r pre :
  scan_suffix r = Some pre ->
  r = suffix_of pre /\
  match pre with Some p => is_suffix_text p = true | None => True end.
Proof.
  destruct r as [|a t]; simpl.
  - now intros [= <-].
  - destruct (Ascii.eqb_spec a "-"); [|discriminate]. subst a. simpl.
    destruct (is_suffix_text t) eqn:E; [|discriminate].
    now intros [= <-].
Qed.

Lemma scan_suffix_of pre :
  match pre with Some p => is_suffix_text p = true | None => True end ->
  scan_suffix (suffix_of pre) = Some pre.
Proof. destruct pre as [p|]; simpl; [now intros -> | auto]. Qed.

Lemma stops_suffix pre : stops is_digit (suffix_of pre).
Proof. destruct pre; simpl; auto. Qed.

Lemma scan_version_sound s d1 d2 d3 pre :
  scan_version s = Some (d1, d2, d3, pre) ->
  is_digits d1 = true /\ is_digits d2 = true /\ is_digits d3 = true /\
  match pre with Some p => is_suffix_text p = true | None => True end /\
  s = d1 ++ "." ++ d2 ++ "." ++ d3 ++ suffix_of pre.
Proof.
  unfold scan_version. intros H.
  destruct (scan_digits s) as [[e1 r1]|] eqn:S1; [|discriminate].
  destruct (expect "." r1) as [r2|] eqn:X1; [|discriminate].
  destruct (scan_digits r2) as [[e2 r3]|] eqn:S2; [|discriminate].
  destruct (expect "." r3) as [r4|] eqn:X2; [|discriminate].
  destruct (scan_digits r4) as [[e3 r5]|] eqn:S3; [|discriminate].
  destruct (scan_suffix r5) as [q|] eqn:S4; [|discriminate].
  injection H as -> -> -> ->.
  apply scan_digits_inv in S1 as (H1 & -> & _).
  apply scan_digits_inv in S2 as (H2 & -> & _).
  apply scan_digits_inv in S3 as (H3 & -> & _).
  apply expect_inv in X1 as ->. apply expect_inv in X2 as ->.
  apply scan_suffix_inv in S4 as (-> & H4).
  repeat split; auto.
Qed.

Lemma scan_version_complete d1 d2 d3 pre :
  is_digits d1 = true -> is_digits d2 = true -> is_digits d3 = true ->
  match pre with Some p => is_suffix_text p = true | None => True end ->
  scan_version (d1 ++ "." ++ d2 ++ "." ++ d3 ++ suffix_of pre)
  = Some (d1, d2, d3, pre).
Proof.
  intros H1 H2 H3 H4. unfold scan_version.
  rewrite (scan_digits_app d1) by (auto; reflexivity). cbn [append expect].
  rewrite Ascii.eqb_refl.
  rewrite (scan_digits_app d2) by (auto; reflexivity). cbn [append expect].
  rewrite Ascii.eqb_refl.
  rewrite (scan_digits_app d3) by (auto; apply stops_suffix).
  now rewrite scan_suffix_of.
Qed.

Lemma version_text_scan s :
  version_text s <-> exists x, scan_version s = Some x.
Proof.
  split.
  - intros [d1 d2 d3 H1 H2 H3 | d1 d2 d3 p H1 H2 H3 H4].
    + exists (d1, d2, d3, None).
      pose proof (scan_version_complete d1 d2 d3 None H1 H2 H3 I) as H.
      simpl suffix_of in H. now rewrite append_nil_r in H.
    + exists (d1, d2, d3, Some p).
      exact (scan_version_complete d1 d2 d3 (Some p) H1 H2 H3 H4).
  - intros [[[[d1 d2] d3] pre] H].
    apply scan_version_sound in H as (H1 & H2 & H3 & H4 & ->).
    destruct pre as [p|]; simpl suffix_of.
    + now apply version_text_pre.
    + rewrite append_nil_r. now apply version_text_plain.
Qed.

Lemma parseVersion_scan s :
  parseVersion s
  = match scan_version s with
    | Some (d1, d2, d3, pre) =>
        Ok {| major := Int (digits_value 10 0 d1);
              minor := Int (digits_value 10 0 d2);
              patch := Int (digits_value 10 0 d3);
              prerelease := pre |}
    | None => Throw (Error ("Invalid version format: " ++ s))
    end.
Proof.
  unfold parseVersion. pose proof (exec_version_re s) as H.
  destruct (exec version_re s) as [m|];
    destruct (scan_version s) as [[[[d1 d2] d3] pre]|] eqn:E;
    cbn [option_map] in H; try discriminate H; [|reflexivity].
  injection H as H. unfold group. rewrite H.
  apply scan_version_sound in E as (H1 & H2 & H3 & H4 & _).
  destruct pre as [p|]; cbn [groups_of lookup Nat.eqb parseInt_opt];
    rewrite !parseInt_digits by assumption; f_equal; f_equal.
  destruct p; [discriminate H4 | reflexivity].
Qed.

(** ** Parsing and formatting *)

Lemma is_count_inv n :
  is_count n = true -> exists z, n = Int z /\ 0 <= z <= MAX_SAFE_INTEGER.
Proof.
  destruct n as [|z]; [discriminate|]. simpl. intros H.
  apply andb_true_iff in H as [H1 H2]. exists z. split; auto. lia.
Qed.

Lemma toString_count z : 0 <= z -> toString (Int z) = digits_of z.
Proof. intros H. simpl. destruct (Z.ltb_spec z 0); [lia | reflexivity]. Qed.

Lemma formatVersion_counts M m p pre :
  0 <= M -> 0 <= m -> 0 <= p ->
  match pre with Some q => truthy (Some q) = true | None => True end ->
  formatVersion (MkVersion (Int M) (Int m) (Int p) pre)
  = digits_of M ++ "." ++ digits_of m ++ "." ++ digits_of p
    ++ suffix_of pre.
Proof.
  intros HM Hm Hp Hpre. unfold formatVersion. cbn [major minor patch prerelease].
  rewrite !toString_count by assumption.
  destruct pre as [q|]; cbn [suffix_of].
  - rewrite Hpre. now rewrite !append_assoc.
  - now rewrite append_nil_r.
Qed.

Lemma valid_version_inv v :
  valid_version v = true ->
  exists M m p,
    v = MkVersion (Int M) (Int m) (Int p) (prerelease v) /\
    0 <= M <= MAX_SAFE_INTEGER /\ 0 <= m <= MAX_SAFE_INTEGER /\
    0 <= p <= MAX_SAFE_INTEGER /\
    match prerelease v with
    | Some q => truthy (Some q) = true
    | None => True
    end.
Proof.
  destruct v as [a b c pre]. unfold valid_version. cbn [major minor patch prerelease].
  intros H. apply andb_true_iff in H as [H H4].
  apply andb_true_iff in H as [H H3]. apply andb_true_iff in H as [H1 H2].
  apply is_count_inv in H1 as (M & -> & HM).
  apply is_count_inv in H2 as (m & -> & Hm).
  apply is_count_inv in H3 as (p & -> & Hp).
  exists M, m, p. repeat split; try lia. destruct pre; auto.
Qed.

Lemma round_trip_counts M m p pre :
  0 <= M -> 0 <= m -> 0 <= p ->
  match pre with Some q => is_suffix_text q = true | None => True end ->
  parseVersion (formatVersion (MkVersion (Int M) (Int m) (Int p) pre))
  = Ok (MkVersion (Int M) (Int m) (Int p) pre).
Proof.
  intros HM Hm Hp Hpre.
  rewrite formatVersion_counts; auto.
  - rewrite parseVersion_scan, scan_version_complete;
      try apply is_digits_digits_of; auto.
    now rewrite !digits_value_digits_of by lia.
  - destruct pre as [q|]; auto. now destruct q.
Qed.

(** C3 (as amended).  Round trip: for every valid Version whose
    prerelease, when present, contains no line terminator,
    [parseVersion (formatVersion v)] succeeds and gives [v] back. *)
Theorem parse_format_round_trip v :
  valid_version v = true ->
  on_one_line (prerelease v) = true ->
  parseVersion (formatVersion v) = Ok v.
Proof.
  intros Hv Hline.
  destruct (valid_version_inv v Hv) as (M & m & p & Ev & HM & Hm & Hp & Hpre).
  rewrite Ev. clear Ev. set (pre := prerelease v) in *. clearbody pre.
  apply round_trip_counts; try lia.
  destruct pre as [q|]; auto. simpl in *. now destruct q.
Qed.

Lemma parse_format_round_trip_witness :
  parseVersion (formatVersion (MkVersion (Int 1) (Int 0) (Int 1)
                                 (Some "alpha.0")))
  = Ok (MkVersion (Int 1) (Int 0) (Int 1) (Some "alpha.0")).
Proof.
  apply (parse_format_round_trip
           (MkVersion (Int 1) (Int 0) (Int 1) (Some "alpha.0")));
    reflexivity.
Defined.

(** C3, counterexample.  A valid Version with a line feed inside its
    prerelease is formatted to a text that parseVersion refuses. *)
Lemma round_trip_fails_on_line_feed :
  let v := MkVersion (Int 1) (Int 0) (Int 0) (Some ("a" ++ LF ++ "b")) in
  valid_version v = true /\
  parseVersion (formatVersion v)
  = Throw (Error ("Invalid version format: 1.0.0-a" ++ LF ++ "b")) /\
  parseVersion (formatVersion v) <> Ok v.
Proof.
  cbv zeta. split; [reflexivity|]. split; [reflexivity|].
  vm_compute. discriminate.
Qed.

(** C4 (as amended).  parseVersion accepts exactly the texts made of
    three non-empty runs of digits separated by dots, optionally
    followed by a hyphen and a non-empty suffix without line
    terminator (white space such as a blank is allowed in it); on every
    other text it throws the error "Invalid version format: " followed
    by the text. *)
Theorem parseVersion_accepts_exactly s :
  (version_text s /\ exists v, parseVersion s = Ok v) \/
  (~ version_text s /\
   parseVersion s = Throw (Error ("Invalid version format: " ++ s))).
Proof.
  rewrite parseVersion_scan.
  destruct (scan_version s) as [[[[d1 d2] d3] pre]|] eqn:E.
  - left. split; [apply version_text_scan; eauto | eauto].
  - right. split; [|reflexivity].
    intros H. apply version_text_scan in H as [x H]. congruence.
Qed.

(** C4, counterexample.  A suffix with a blank is accepted by
    parseVersion although the grammar of the specification refuses the
    text. *)
Lemma parseVersion_accepts_blank_in_suffix :
  parseVersion "1.0.0-a b"
  = Ok (MkVersion (Int 1) (Int 0) (Int 0) (Some "a b")) /\
  test spec_version_re "1.0.0-a b" = false.
Proof. split; reflexivity. Qed.

(** Every text the grammar of the specification describes is accepted:
    the code's pattern differs from it by what the suffix may hold. *)
Lemma rmatch_plus_digits re r j cs :
  (forall c t j', is_digit c = true ->
                  rmatch re (MState (String c t) j' cs) Some = None) ->
  rmatch (Plus is_digit @ re) (MState r j cs) Some
  = match scan_digits r with
    | Some (ds, r') => rmatch re (MState r' (j + String.length ds) cs) Some
    | None => None
    end.
Proof.
  intros Hre.
  change (rmatch (Plus is_digit @ re) (MState r j cs) Some)
    with (rmatch (Plus is_digit) (MState r j cs)
            (fun st1 => rmatch re st1 Some)).
  rewrite plus_greedy by exact Hre.
  unfold scan_digits. now destruct (take_while is_digit r).
Qed.

Lemma rmatch_spec_suffix r j cs :
  rmatch (Opt (Chr "-" @ Plus non_space) @ Eol) (MState r j cs) Some = None
  \/ exists pre, scan_suffix r = Some pre.
Proof.
  rewrite rmatch_opt, rmatch_chr_k, rmatch_eol.
  destruct r as [|a t]; [right; now exists None|]. cbn [expect scan_suffix].
  destruct (Ascii.eqb a "-"); cbn [andb]; [|now left].
  rewrite plus_greedy.
  - destruct (take_while non_space t) as [|c ds] eqn:Etw; [now left|].
    cbn [rest pos caps].
    destruct (Nat.eqb (S j + String.length (String c ds)) j); [now left|].
    rewrite rmatch_eol.
    destruct (drop_while non_space t) as [|c' r'] eqn:Edw; [|now left].
    right. exists (Some t).
    apply drop_while_nil_all in Edw.
    assert (Ht : is_suffix_text t = true).
    { destruct t as [|c0 t0]; [discriminate Etw|].
      revert Edw. apply all_chars_impl. intros x Hx.
      unfold dot, non_space in *.
      destruct x as [[] [] [] [] [] [] [] []]; vm_compute in Hx |- *;
        congruence. }
    now rewrite Ht.
  - intros c t' j' _. cbn [rest pos caps]. now destruct (Nat.eqb j' j).
Qed.

Lemma rmatch_spec_suffix_digit c t j cs :
  is_digit c = true ->
  rmatch (Opt (Chr "-" @ Plus non_space) @ Eol)
    (MState (String c t) j cs) Some = None.
Proof.
  intros Hc. rewrite rmatch_opt, rmatch_chr_k, rmatch_eol. cbn [expect].
  now rewrite (digit_not_dash _ Hc).
Qed.

Theorem spec_grammar_accepted s :
  test spec_version_re s = true -> exists v, parseVersion s = Ok v.
Proof.
  intros Ht.
  assert (Hm : rmatch spec_version_re (MState s 0 []) Some <> None).
  { unfold test, exec in Ht. intros Hnone.
    destruct s as [|c t]; cbn [search] in Ht; rewrite Hnone in Ht;
      [discriminate Ht|].
    unfold spec_version_re in Ht. now rewrite search_anchored in Ht. }
  assert (Hs : exists x, scan_version s = Some x).
  { unfold spec_version_re in Hm.
    change (rmatch (Bol @ ?r) (MState s 0 []) Some)
      with (rmatch r (MState s 0 []) Some) in Hm.
    unfold scan_version.
    rewrite rmatch_plus_digits in Hm
      by (intros; now apply rmatch_chr_dot_digit).
    destruct (scan_digits s) as [[d1 r1]|]; [|congruence].
    rewrite rmatch_chr_k in Hm.
    destruct (expect "." r1) as [r2|]; [|congruence].
    rewrite rmatch_plus_digits in Hm
      by (intros; now apply rmatch_chr_dot_digit).
    destruct (scan_digits r2) as [[d2 r3]|]; [|congruence].
    rewrite rmatch_chr_k in Hm.
    destruct (expect "." r3) as [r4|]; [|congruence].
    rewrite rmatch_plus_digits in Hm
      by (intros; now apply rmatch_spec_suffix_digit).
    destruct (scan_digits r4) as [[d3 r5]|]; [|congruence].
    destruct (rmatch_spec_suffix r5 (0 + String.length d1 + 1
                                     + String.length d2 + 1
                                     + String.length d3) []) as [Hn|[pre Hp]].
    - exfalso. apply Hm. rewrite <- Hn. do 2 f_equal. lia.
    - rewrite Hp. eauto. }
  destruct Hs as [[[[d1 d2] d3] pre] Hs].
  rewrite parseVersion_scan, Hs. eauto.
Qed.

Lemma spec_grammar_accepted_witness :
  exists v, parseVersion "1.0.1-alpha.0" = Ok v.
Proof. apply spec_grammar_accepted. reflexivity. Defined.

Lemma canonical_unorm d : canonical (NilZero.string_of_uint (unorm d)) = true.
Proof.
  induction d; try reflexivity;
    try (simpl unorm; simpl NilZero.string_of_uint;
         exact (all_digits_string_of_uint _)).
  now rewrite DecimalFacts.unorm_D0.
Qed.

Lemma canonical_digits_of n : canonical (digits_of n) = true.
Proof.
  unfold digits_of.
  rewrite <- (DecimalN.Unsigned.of_to (Z.to_N n)) at 1.
  rewrite DecimalN.Unsigned.to_of. apply canonical_unorm.
Qed.

Lemma digits_value_nonneg s acc : 0 <= acc -> 0 <= digits_value 10 acc s.
Proof.
  revert acc. induction s as [|c t IH]; intros acc Hacc;
    cbn [digits_value]; auto.
  destruct (digit_value c) as [d|] eqn:E; auto.
  apply IH. unfold digit_value in E.
  destruct c as [[] [] [] [] [] [] [] []]; vm_compute in E;
    try discriminate E; injection E as <-; lia.
Qed.

Lemma numerals_canonical_scan s d1 d2 d3 pre :
  scan_version s = Some (d1, d2, d3, pre) ->
  numerals_canonical s = (canonical d1 && canonical d2 && canonical d3)%bool.
Proof.
  intros E. unfold numerals_canonical. pose proof (exec_version_re s) as H.
  rewrite E in H. destruct (exec version_re s) as [m|]; [|discriminate H].
  cbn [option_map] in H. injection H as H.
  unfold capture_text, group. rewrite H.
  now destruct pre.
Qed.

(** C5 (as amended).  For every text parseVersion accepts, with numeric
    components that are exact counts: formatting the parsed Version
    gives the text back exactly when none of the three numeric
    components is written with a superfluous leading zero. *)
Theorem format_parse_identity s v :
  parseVersion s = Ok v ->
  valid_version v = true ->
  (formatVersion v = s <-> numerals_canonical s = true).
Proof.
  intros Hp Hv. rewrite parseVersion_scan in Hp.
  destruct (scan_version s) as [[[[d1 d2] d3] pre]|] eqn:E; [|discriminate].
  injection Hp as <-.
  rewrite (numerals_canonical_scan _ _ _ _ _ E).
  pose proof (scan_version_sound _ _ _ _ _ E) as (H1 & H2 & H3 & H4 & Hs).
  assert (Hpre : match pre with
                 | Some q => truthy (Some q) = true
                 | None => True
                 end).
  { destruct pre as [q|]; auto. now destruct q. }
  rewrite formatVersion_counts
    by (auto; apply digits_value_nonneg; lia).
  split.
  - intros Hf.
    assert (Hscan : scan_version s
                    = Some (digits_of (digits_value 10 0 d1),
                            digits_of (digits_value 10 0 d2),
                            digits_of (digits_value 10 0 d3), pre)).
    { rewrite <- Hf.
      apply scan_version_complete; auto; apply is_digits_digits_of. }
    rewrite E in Hscan. injection Hscan as -> -> ->.
    now rewrite !canonical_digits_of.
  - intros Hc. apply andb_true_iff in Hc as [Hc Hc3].
    apply andb_true_iff in Hc as [Hc1 Hc2].
    now rewrite !digits_of_digits_value, Hs by assumption.
Qed.

Lemma format_parse_identity_witness :
  formatVersion (MkVersion (Int 1) (Int 0) (Int 1) (Some "alpha.0"))
  = "1.0.1-alpha.0" <->
  numerals_canonical "1.0.1-alpha.0" = true.
Proof.
  apply (format_parse_identity "1.0.1-alpha.0"
           (MkVersion (Int 1) (Int 0) (Int 1) (Some "alpha.0")));
    reflexivity.
Defined.

(** Formatting after parsing is idempotent on the exact range: when the
    components parsed are exactly representable, a second pass changes
    nothing. *)
Theorem format_parse_idempotent s v :
  parseVersion s = Ok v ->
  is_count (major v) = true -> is_count (minor v) = true ->
  is_count (patch v) = true ->
  parseVersion (formatVersion v) = Ok v.
Proof.
  intros Hp _ _ _. rewrite parseVersion_scan in Hp.
  destruct (scan_version s) as [[[[d1 d2] d3] pre]|] eqn:E; [|discriminate].
  injection Hp as <-.
  apply scan_version_sound in E as (_ & _ & _ & H4 & _).
  apply round_trip_counts; auto; apply digits_value_nonneg; lia.
Qed.

Lemma format_parse_idempotent_witness :
  parseVersion (formatVersion (MkVersion (Int 1) (Int 2) (Int 3) None))
  = Ok (MkVersion (Int 1) (Int 2) (Int 3) None).
Proof. apply (format_parse_idempotent "01.2.3"); reflexivity. Defined.

(** C5, counterexample.  A text with a leading zero in a numeric
    component is accepted, and formatting the parsed Version does not
    give it back. *)
Lemma format_parse_drops_leading_zero :
  parseVersion "01.2.3" = Ok (MkVersion (Int 1) (Int 2) (Int 3) None) /\
  formatVersion (MkVersion (Int 1) (Int 2) (Int 3) None) = "1.2.3" /\
  formatVersion (MkVersion (Int 1) (Int 2) (Int 3) None) <> "01.2.3".
Proof. repeat split; try reflexivity. vm_compute. discriminate. Qed.

(** ** The bump rules *)

Lemma split_no_dot s : all_chars not_dot s = true -> split "." s = [s].
Proof.
  induction s as [|c t IH]; simpl; auto.
  unfold not_dot at 1. destruct (Ascii.eqb c "."); simpl; [discriminate|].
  intros H. now rewrite (IH H).
Qed.

Lemma split_two label count :
  all_chars not_dot label = true -> all_chars not_dot count = true ->
  split "." (label ++ "." ++ count) = [label; count].
Proof.
  intros Hl Hc. induction label as [|c t IH]; simpl.
  - now rewrite (split_no_dot _ Hc).
  - simpl in Hl. unfold not_dot at 1 in Hl.
    destruct (Ascii.eqb c "."); simpl in Hl; [discriminate|].
    simpl in IH. now rewrite (IH Hl).
Qed.

Lemma digits_no_dot s : all_chars is_digit s = true -> all_chars not_dot s = true.
Proof.
  apply all_chars_impl. intros c Hc. unfold not_dot.
  now rewrite (digit_not_dot _ Hc).
Qed.

Lemma bump_prerelease_counter M m p q label n :
  counter_of q = Some (label, n) ->
  bump (MkVersion M m p (Some q)) "prerelease"
  = Ok (MkVersion M m p (Some (label ++ "." ++ toString (Int (n + 1))))).
Proof.
  unfold counter_of. intros H.
  destruct (split "." q) as [|l0 [|c0 [|x r]]] eqn:Es; try discriminate H.
  destruct (parseInt c0) as [|k] eqn:Ep; [discriminate H|].
  injection H as -> ->.
  assert (Hq : truthy (Some q) = true).
  { destruct q; [discriminate Es | reflexivity]. }
  unfold bump. cbn [String.eqb Ascii.eqb Bool.eqb prerelease major minor patch].
  rewrite Hq, Es. cbn [List.length Nat.eqb nth andb]. rewrite Ep.
  reflexivity.
Qed.

Lemma bump_prerelease_other M m p q :
  truthy (Some q) = true -> counter_of q = None ->
  bump (MkVersion M m p (Some q)) "prerelease"
  = Ok (MkVersion M m p (Some "alpha.0")).
Proof.
  unfold counter_of. intros Hq H.
  unfold bump. cbn [String.eqb Ascii.eqb Bool.eqb prerelease major minor patch].
  rewrite Hq.
  destruct (split "." q) as [|l0 [|c0 [|x r]]] eqn:Es; try reflexivity.
  cbn [List.length Nat.eqb nth andb].
  destruct (parseInt c0); [reflexivity | discriminate H].
Qed.

(** C1 (as amended).  For every valid Version [v], [bump v prerelease]
    behaves as follows.  If the prerelease splits on dots into exactly
    two parts and parseInt reads the second part as an integer [n],
    the result keeps (major, minor, patch) and the label and puts
    [n + 1] in place of the second part; this covers the exact shape
    label.integer.  If a prerelease is present and has another shape,
    the result keeps (major, minor, patch) and sets prerelease to
    "alpha.0".  If no prerelease is present, patch is incremented by 1
    and prerelease is set to "alpha.0". *)
Theorem bump_prerelease_rule M m p pre :
  valid_version (MkVersion (Int M) (Int m) (Int p) pre) = true ->
  (forall q label n,
      pre = Some q -> counter_of q = Some (label, n) -> is_safe n = true ->
      bump (MkVersion (Int M) (Int m) (Int p) pre) "prerelease"
      = Ok (MkVersion (Int M) (Int m) (Int p)
              (Some (label ++ "." ++ toString (Int (n + 1)))))) /\
  (forall label ds,
      pre = Some (label ++ "." ++ ds) ->
      all_chars not_dot label = true -> is_digits ds = true ->
      is_safe (digits_value 10 0 ds) = true ->
      bump (MkVersion (Int M) (Int m) (Int p) pre) "prerelease"
      = Ok (MkVersion (Int M) (Int m) (Int p)
              (Some (label ++ "."
                     ++ digits_of (digits_value 10 0 ds + 1))))) /\
  (forall q,
      pre = Some q -> counter_of q = None ->
      bump (MkVersion (Int M) (Int m) (Int p) pre) "prerelease"
      = Ok (MkVersion (Int M) (Int m) (Int p) (Some "alpha.0"))) /\
  (pre = None ->
   bump (MkVersion (Int M) (Int m) (Int p) pre) "prerelease"
   = Ok (MkVersion (Int M) (Int m) (Int (p + 1)) (Some "alpha.0"))).
Proof.
  intros Hv. repeat split.
  - intros q label n -> Hc _. now apply bump_prerelease_counter.
  - intros label ds -> Hl Hd _.
    rewrite (bump_prerelease_counter _ _ _ _ label (digits_value 10 0 ds)).
    + rewrite toString_count; [reflexivity|].
      pose proof (digits_value_nonneg ds 0). lia.
    + unfold counter_of.
      rewrite (split_two _ _ Hl (digits_no_dot _ (is_digits_all _ Hd))).
      now rewrite (parseInt_digits _ Hd).
  - intros q -> Hc. apply bump_prerelease_other; auto.
    apply valid_version_inv in Hv as (_ & _ & _ & _ & _ & _ & _ & H).
    exact H.
  - now intros ->.
Qed.

Lemma bump_prerelease_rule_witness :
  bump (MkVersion (Int 1) (Int 0) (Int 1) (Some "alpha.0")) "prerelease"
  = Ok (MkVersion (Int 1) (Int 0) (Int 1) (Some "alpha.1")).
Proof.
  refine (proj1 (bump_prerelease_rule 1 0 1 (Some "alpha.0") _)
            "alpha.0" "alpha" 0 _ _ _); reflexivity.
Defined.

(** C1, counterexample.  On 1.0.1-beta, a valid Version whose prerelease
    has no label.integer shape, the rule of the specification
    increments patch while [bump] leaves it alone; on 1.0.1-alpha.1abc,
    whose second part is no integer, the rule of the specification
    falls back to the seed while [bump] increments the leading 1. *)
Lemma bump_prerelease_keeps_patch :
  let v := MkVersion (Int 1) (Int 0) (Int 1) (Some "beta") in
  let v' := MkVersion (Int 1) (Int 0) (Int 1) (Some "alpha.1abc") in
  valid_version v = true /\
  spec_bump_prerelease v
  = MkVersion (Int 1) (Int 0) (Int 2) (Some "alpha.0") /\
  bump v "prerelease"
  = Ok (MkVersion (Int 1) (Int 0) (Int 1) (Some "alpha.0")) /\
  bump v "prerelease" <> Ok (spec_bump_prerelease v) /\
  valid_version v' = true /\
  spec_bump_prerelease v'
  = MkVersion (Int 1) (Int 0) (Int 2) (Some "alpha.0") /\
  bump v' "prerelease"
  = Ok (MkVersion (Int 1) (Int 0) (Int 1) (Some "alpha.2")).
Proof.
  cbv zeta. repeat split; try reflexivity. vm_compute. discriminate.
Qed.

(** C2.  For every valid Version: major, minor and patch bumps
    increment their component, reset the lower ones to 0 and clear the
    prerelease; premajor, preminor and prepatch make the same numeric
    change and set the prerelease to exactly "alpha.0". *)
Theorem bump_numeric_kinds M m p pre :
  valid_version (MkVersion (Int M) (Int m) (Int p) pre) = true ->
  bump (MkVersion (Int M) (Int m) (Int p) pre) "major"
  = Ok (MkVersion (Int (M + 1)) (Int 0) (Int 0) None) /\
  bump (MkVersion (Int M) (Int m) (Int p) pre) "minor"
  = Ok (MkVersion (Int M) (Int (m + 1)) (Int 0) None) /\
  bump (MkVersion (Int M) (Int m) (Int p) pre) "patch"
  = Ok (MkVersion (Int M) (Int m) (Int (p + 1)) None) /\
  bump (MkVersion (Int M) (Int m) (Int p) pre) "premajor"
  = Ok (MkVersion (Int (M + 1)) (Int 0) (Int 0) (Some "alpha.0")) /\
  bump (MkVersion (Int M) (Int m) (Int p) pre) "preminor"
  = Ok (MkVersion (Int M) (Int (m + 1)) (Int 0) (Some "alpha.0")) /\
  bump (MkVersion (Int M) (Int m) (Int p) pre) "prepatch"
  = Ok (MkVersion (Int M) (Int m) (Int (p + 1)) (Some "alpha.0")).
Proof. intros _. repeat split. Qed.

Lemma bump_numeric_kinds_witness :
  bump (MkVersion (Int 2) (Int 5) (Int 9) None) "major"
  = Ok (MkVersion (Int 3) (Int 0) (Int 0) None).
Proof.
  refine (proj1 (bump_numeric_kinds 2 5 9 None _)). reflexivity.
Defined.

(** ** What parseInt reads of a second part *)















(** The two instances C10 names, and the scenarios of the specification,
    on version texts. *)
Example bump_alpha_1abc :
  bumpVersion "1.0.1-alpha.1abc" "prerelease" = Ok "1.0.1-alpha.2".
Proof. reflexivity. Qed.

Example bump_alpha_minus_2 :
  bumpVersion "1.0.1-alpha.-2" "prerelease" = Ok "1.0.1-alpha.-1".
Proof. reflexivity. Qed.

Example scenario_1 : bumpVersion "1.2.3" "patch" = Ok "1.2.4".
Proof. reflexivity. Qed.

Example scenario_2 : bumpVersion "1.0.0" "prepatch" = Ok "1.0.1-alpha.0".
Proof. reflexivity. Qed.

Example scenario_3 :
  bumpVersion "1.0.1-alpha.0" "prerelease" = Ok "1.0.1-alpha.1".
Proof. reflexivity. Qed.

Example scenario_4 : bumpVersion "1.0.1-alpha.1" "patch" = Ok "1.0.2".
Proof. reflexivity. Qed.

Example scenario_5 : bumpVersion "2.5.9" "major" = Ok "3.0.0".
Proof. reflexivity. Qed.

Example scenario_6 :
  bumpVersion "v1.0" "patch" = Throw (Error "Invalid version format: v1.0").
Proof. reflexivity. Qed.

(** ** The command controller *)

Lemma only_logs_refl w : only_logs w w.
Proof.
  repeat split. exists []. simpl. now rewrite app_nil_r.
Qed.

Lemma only_logs_trans w1 w2 w3 :
  only_logs w1 w2 -> only_logs w2 w3 -> only_logs w1 w3.
Proof.
  intros (P1 & I1 & l1 & T1) (P2 & I2 & l2 & T2).
  repeat split; try congruence.
  exists (l1 ++ l2)%list. rewrite T2, T1, map_app. now rewrite app_assoc.
Qed.

Lemma only_logs_emit line w : only_logs w (emit (ConsoleLog line) w).
Proof. repeat split. now exists [line]. Qed.

Lemma quiet_ret {A} (a : A) : quiet (ret a).
Proof. intros w. apply only_logs_refl. Qed.

Lemma quiet_raise {A} (e : exn) : quiet (@raise A e).
Proof. intros w. apply only_logs_refl. Qed.

Lemma quiet_exit {A} (c : Z) : quiet (@process_exit A c).
Proof. intros w. apply only_logs_refl. Qed.

Lemma quiet_lift {A} (r : result A) : quiet (lift r).
Proof. destruct r; [apply quiet_ret | apply quiet_raise]. Qed.

Lemma quiet_console_log line : quiet (console_log line).
Proof. intros w. apply only_logs_emit. Qed.

Lemma quiet_colorLog c message : quiet (colorLog c message).
Proof. apply quiet_console_log. Qed.

Lemma quiet_bind {A B} (m : M A) (f : A -> M B) :
  quiet m -> (forall a, quiet (f a)) -> quiet (mbind m f).
Proof.
  intros Hm Hf w. unfold mbind. specialize (Hm w).
  destruct (m w) as [[a|c|e] w1]; simpl in *; auto.
  eapply only_logs_trans; [exact Hm | apply Hf].
Qed.

Lemma quiet_try_catch {A} (body : M A) (handler : exn -> M A) :
  quiet body -> (forall e, quiet (handler e)) -> quiet (try_catch body handler).
Proof.
  intros Hb Hh w. unfold try_catch. specialize (Hb w).
  destruct (body w) as [[a|c|e] w1]; simpl in *; auto.
  eapply only_logs_trans; [exact Hb | apply Hh].
Qed.

Create HintDb quiet.
#[local] Hint Resolve quiet_ret quiet_raise quiet_exit quiet_lift
  quiet_console_log quiet_colorLog : quiet.

Ltac quiet_steps :=
  repeat first
    [ apply quiet_bind; [|intros ?]
    | apply quiet_try_catch; [|intros ?]
    | solve [auto with quiet] ].

Section ScriptProperties.

Variable cwd : string.
Variable JSON_parse : string -> result object.
Variable JSON_stringify : object -> string.
Variable execSync : World -> string -> option string.

Lemma quiet_readFileSync f : quiet (readFileSync cwd f).
Proof.
  intros w. unfold readFileSync. destruct (read w f); apply only_logs_refl.
Qed.

Lemma quiet_readPackageJson : quiet (readPackageJson cwd JSON_parse).
Proof.
  unfold readPackageJson. quiet_steps. apply quiet_readFileSync.
Qed.

Lemma quiet_showHelp : quiet showHelp.
Proof. unfold showHelp. quiet_steps. Qed.

(** C6.  Dry run: for every invocation whose arguments contain
    [--dry-run], whatever the rest of the arguments and the state of
    the files, the run leaves package.json and src/index.ts as they
    were and all it does is console output: no file is written and no
    source-control command is issued. *)
Theorem dry_run_changes_nothing args w :
  includes args "--dry-run" = true ->
  only_logs w (fst (run cwd JSON_parse JSON_stringify execSync args w)).
Proof.
  intros Hdry.
  assert (Hq : quiet (main cwd JSON_parse JSON_stringify execSync args)).
  { unfold main. rewrite Hdry.
    destruct (nth_error args 0) as [bumpType|]; [|apply quiet_showHelp].
    destruct (String.eqb bumpType "" || String.eqb bumpType "help")%bool;
      [apply quiet_showHelp|].
    apply quiet_bind; [apply quiet_readPackageJson | intros packageJson].
    destruct (String.eqb bumpType "current"); [apply quiet_colorLog|].
    destruct (negb (includes validBumpTypes bumpType)); quiet_steps. }
  specialize (Hq w). unfold run.
  destruct (main _ _ _ _ args w) as [[a|c|e] w']; exact Hq.
Qed.

Lemma validBumpTypes_inv b :
  includes validBumpTypes b = true ->
  (String.eqb b "" || String.eqb b "help")%bool = false /\
  String.eqb b "current" = false.
Proof.
  unfold includes, validBumpTypes. cbn [existsb]. intros H.
  repeat (apply orb_true_iff in H as [H|H];
          [apply String.eqb_eq in H; subst b; split; reflexivity|]).
  discriminate H.
Qed.

(** C7.  Abort before mutation: when the first argument is a valid bump
    kind and the version text of the manifest does not parse, the run
    prints the error "Invalid version format: " followed by the text,
    exits with code 1, and does nothing else: no file is written and
    no command is issued. *)
Theorem unparsable_version_aborts args w bumpType text packageJson s e :
  nth_error args 0 = Some bumpType ->
  includes validBumpTypes bumpType = true ->
  package_json w = Some text ->
  JSON_parse text = Ok packageJson ->
  get "version" packageJson = Some (VString s) ->
  parseVersion s = Throw e ->
  run cwd JSON_parse JSON_stringify execSync args w
  = (emit (ConsoleLog (colors red ++ "❌ Error: Invalid version format: "
                       ++ s ++ colors reset)) w, 1).
Proof.
  intros Harg Hvalid Hfile Hjson Hget Hparse.
  assert (He : e = Error ("Invalid version format: " ++ s)).
  { unfold parseVersion in Hparse.
    destruct (exec version_re s); congruence. }
  subst e.
  destruct (validBumpTypes_inv _ Hvalid) as [Hhelp Hcur].
  unfold run, main. rewrite Harg, Hhelp.
  unfold mbind at 1, readPackageJson, try_catch, mbind, readFileSync.
  cbn [read]. rewrite Hfile. unfold lift. rewrite Hjson.
  unfold ret. rewrite Hcur, Hvalid. cbn [negb].
  rewrite Hget. unfold bumpVersion_of, bumpVersion. rewrite Hparse.
  reflexivity.
Qed.

End ScriptProperties.

Lemma dry_run_changes_nothing_witness :
  let w := MkWorld (Some "{}") (Some "return '1.0.0';") (fun _ => true) [] in
  only_logs w
    (fst (run "/repo"
            (fun _ => Ok [("version", VString "1.0.0")])
            (fun _ => "{}") (fun _ _ => Some "")
            ["major"; "--dry-run"] w)).
Proof.
  cbv zeta.
  apply (dry_run_changes_nothing "/repo"
           (fun _ => Ok [("version", VString "1.0.0")])
           (fun _ => "{}") (fun _ _ => Some "") ["major"; "--dry-run"]).
  reflexivity.
Defined.

Lemma unparsable_version_aborts_witness :
  let w := MkWorld (Some "{}") (Some "return '1.0.0';") (fun _ => true) [] in
  run "/repo" (fun _ => Ok [("version", VString "v1.0")])
    (fun _ => "{}") (fun _ _ => Some "") ["patch"] w
  = (emit (ConsoleLog (colors red ++ "❌ Error: Invalid version format: "
                       ++ "v1.0" ++ colors reset)) w, 1).
Proof.
  cbv zeta.
  apply (unparsable_version_aborts "/repo"
           (fun _ => Ok [("version", VString "v1.0")])
           (fun _ => "{}") (fun _ _ => Some "") ["patch"] _ "patch" "{}"
           [("version", VString "v1.0")] "v1.0"
           (Error "Invalid version format: v1.0"));
    reflexivity.
Defined.

(** ** The source-file step *)

Lemma expand_plain n str m template :
  all_chars no_dollar template = true -> expand n str m template = template.
Proof.
  induction template as [|a t IH]; [reflexivity|].
  cbn [all_chars]. intros H. apply andb_true_iff in H as [Ha Ht].
  specialize (IH Ht).
  destruct a as [[] [] [] [] [] [] [] []]; try discriminate Ha;
    cbn [expand]; now rewrite IH.
Qed.

Lemma drop_length_take n s : drop (String.length (take n s)) s = drop n s.
Proof.
  unfold take. revert s. induction n as [|n IH]; intros [|c t]; simpl; auto.
Qed.

(** The input is the text before the match, the match, and the text
    after it. *)
Lemma exec_splits re s m :
  exec re s = Some m ->
  s = take (index m) s ++ matched m
      ++ drop (index m + String.length (matched m)) s.
Proof.
  unfold exec. destruct (search re s 0) as [[i st]|]; [|discriminate].
  intros [= <-]. cbn [index matched].
  rewrite drop_drop, drop_length_take, take_drop, take_drop. reflexivity.
Qed.

(** No earlier start position matches. *)
Lemma search_leftmost re s i k st :
  search re s i = Some (k, st) ->
  (i <= k)%nat /\
  forall j, (i <= j < k)%nat ->
            rmatch re (MState (drop (j - i) s) j []) Some = None.
Proof.
  revert i. induction s as [|c t IH]; intros i; cbn [search].
  - destruct (rmatch re (MState "" i []) Some); [|discriminate].
    intros [= <- <-]. split; [lia|]. intros j Hj. lia.
  - destruct (rmatch re (MState (String c t) i []) Some) eqn:E.
    + intros [= <- <-]. split; [lia|]. intros j Hj. lia.
    + intros H. apply IH in H as [Hle Hno]. split; [lia|].
      intros j Hj. destruct (Nat.eq_dec j i) as [->|Hne].
      * now rewrite Nat.sub_diag.
      * replace (j - i)%nat with (S (j - S i)) by lia. cbn [drop].
        apply Hno. lia.
Qed.

Lemma exec_leftmost re s m :
  exec re s = Some m ->
  forall j, (j < index m)%nat ->
            rmatch re (MState (drop j s) j []) Some = None.
Proof.
  unfold exec. destruct (search re s 0) as [[i st]|] eqn:E; [|discriminate].
  intros [= <-]. cbn [index]. intros j Hj.
  destruct (search_leftmost _ _ _ _ _ E) as [_ H].
  specialize (H j). rewrite Nat.sub_0_r in H. apply H. lia.
Qed.

Section SourceStep.

Variable cwd : string.

(** The part of C8 that holds.  A missing source file, or one without a
    match, leaves the world as it is; when the pattern matches and the
    new version text contains no dollar sign, the leftmost match is
    replaced by the [return] statement of the new version and the text
    before and after it is kept. *)
Lemma updateSource_absent newVersion w :
  index_ts w = None -> updateSource cwd newVersion w = (Done tt, w).
Proof.
  intros H. unfold updateSource, mbind, existsSync. cbn [read].
  now rewrite H.
Qed.

Lemma updateSource_no_match newVersion w content :
  index_ts w = Some content -> test versionRegex content = false ->
  updateSource cwd newVersion w = (Done tt, w).
Proof.
  intros H Ht. unfold updateSource, mbind, existsSync, readFileSync.
  cbn [read]. rewrite H. cbv beta iota. unfold when at 1. cbv beta iota.
  rewrite H. cbv beta iota. now rewrite Ht.
Qed.

Lemma updateSource_match newVersion w content :
  index_ts w = Some content ->
  test versionRegex content = true ->
  writable w IndexTs = true ->
  updateSource cwd newVersion w
  = (Done tt,
     emit (ConsoleLog (colors green ++ "✅ Updated version in src/index.ts"
                       ++ colors reset))
       (store IndexTs
          (replace versionRegex 1 content
             ("return " ++ String DQ (newVersion ++ String DQ ";"))) w)).
Proof.
  intros H Ht Hw. unfold updateSource, mbind, existsSync, readFileSync.
  cbn [read]. rewrite H. cbv beta iota. unfold when at 1. cbv beta iota.
  rewrite H. cbv beta iota. rewrite Ht. unfold when, writeFileSync.
  now rewrite Hw.
Qed.

(** X1.  The source-file step replaces the leftmost match only: when
    the pattern matches, the file is writable and the new version text
    contains no dollar sign, the content is the text before the match,
    the match and the text after it; no match starts earlier; the file
    becomes the text before, the statement of the new version and the
    text after; and package.json is not touched by the step. *)
Lemma updateSource_first_match newVersion w content m :
  index_ts w = Some content ->
  exec versionRegex content = Some m ->
  writable w IndexTs = true ->
  all_chars no_dollar newVersion = true ->
  let before := take (index m) content in
  let after := drop (index m + String.length (matched m)) content in
  let w' := snd (updateSource cwd newVersion w) in
  content = before ++ matched m ++ after /\
  (forall j, (j < index m)%nat ->
             rmatch versionRegex (MState (drop j content) j []) Some = None) /\
  index_ts w'
  = Some (before ++ "return " ++ String DQ (newVersion ++ String DQ ";")
          ++ after) /\
  package_json w' = package_json w.
Proof.
  intros H Hm Hw Hplain. cbv zeta.
  split; [exact (exec_splits _ _ _ Hm)|].
  split; [exact (exec_leftmost _ _ _ Hm)|].
  rewrite (updateSource_match _ _ _ H) by (auto; unfold test; now rewrite Hm).
  cbn [snd emit store index_ts package_json]. split; [|reflexivity].
  unfold replace. rewrite Hm, expand_plain.
  - now rewrite !append_assoc.
  - cbn [append all_chars]. rewrite all_chars_app, Hplain. reflexivity.
Qed.

End SourceStep.

Lemma updateSource_first_match_witness :
  let content := "a(); return '1.0.0'; return '2.0.0';" in
  let w := MkWorld None (Some content) (fun _ => true) [] in
  let m := MkMatch 5 "return '1.0.0';" [] in
  let w' := snd (updateSource "/repo" "1.0.1" w) in
  content = take 5 content ++ "return '1.0.0';" ++ drop (5 + 15) content /\
  (forall j, (j < 5)%nat ->
             rmatch versionRegex (MState (drop j content) j []) Some = None) /\
  index_ts w'
  = Some (take 5 content ++ return_statement "1.0.1"
          ++ drop (5 + 15) content) /\
  package_json w' = None.
Proof.
  cbv zeta.
  apply (updateSource_first_match "/repo" "1.0.1"
           (MkWorld None (Some "a(); return '1.0.0'; return '2.0.0';")
              (fun _ => true) [])
           "a(); return '1.0.0'; return '2.0.0';"
           (MkMatch 5 "return '1.0.0';" []));
    reflexivity.
Defined.

(** C8, the defect.  The new version text is spliced into a replacement
    template, in which [$&] stands for the matched text.  The manifest
    version 1.0.0-$&.1 parses; its prerelease bump is 1.0.0-$&.2; and
    the source file then receives the old statement inside the new one
    instead of the new version text. *)
Theorem updateSource_expands_dollar_patterns :
  let source := "  return " ++ String DQ ("1.0.0" ++ String DQ ";") in
  let w := MkWorld (Some "{}") (Some source) (fun _ => true) [] in
  let w' :=
    fst (run "/repo" (fun _ => Ok [("version", VString "1.0.0-$&.1")])
           (fun _ => "{}") (fun _ _ => Some "")
           ["prerelease"; "--no-git"] w) in
  bumpVersion "1.0.0-$&.1" "prerelease" = Ok "1.0.0-$&.2" /\
  index_ts w'
  = Some ("  return " ++ String DQ ("1.0.0-return "
          ++ String DQ ("1.0.0" ++ String DQ (";.2" ++ String DQ ";")))) /\
  index_ts w'
  <> Some ("  return " ++ String DQ ("1.0.0-$&.2" ++ String DQ ";")).
Proof.
  cbv zeta. repeat split; try reflexivity. vm_compute. discriminate.
Qed.

(** ** Commit and tag *)

Lemma commands_app a b : commands (a ++ b) = (commands a ++ commands b)%list.
Proof.
  induction a as [|e a IH]; simpl; auto. destruct e; simpl; congruence.
Qed.

(** C9, what the code does.  [createGitTag] runs exactly three
    commands: it stages package.json, commits with the message
    "chore: bump version to" and the version, and creates the
    lightweight tag v followed by the version.  No command stages
    src/index.ts. *)
Theorem createGitTag_commands execSync version w :
  commands (trace (snd (createGitTag execSync version w)))
  = (commands (trace w)
     ++ ["git add package.json";
         ("git commit -m "
          ++ String DQ ("chore: bump version to " ++ version)
          ++ String DQ EmptyString)%string;
         ("git tag v" ++ version)%string])%list.
Proof.
  unfold createGitTag, try_catch, mbind, runGitCommand, colorLog,
    console_log, emit.
  cbn [trace snd package_json index_ts writable].
  rewrite !commands_app. cbn [commands]. rewrite !app_nil_r.
  now rewrite <- !app_assoc.
Qed.

(** C9, the defect on a run.  A patch bump with a clean working tree
    rewrites both package.json and src/index.ts, and then stages
    package.json only. *)
Example run_stages_manifest_only :
  let source := "  return " ++ String DQ ("1.0.0" ++ String DQ ";") in
  let w := MkWorld (Some "{}") (Some source) (fun _ => true) [] in
  let w' :=
    fst (run "/repo" (fun _ => Ok [("version", VString "1.0.0")])
           (fun o => show (get "version" o)) (fun _ _ => Some "")
           ["patch"] w) in
  package_json w' = Some ("1.0.1" ++ LF) /\
  index_ts w' = Some ("  return " ++ String DQ ("1.0.1" ++ String DQ ";")) /\
  commands (trace w')
  = ["git status --porcelain"; "git add package.json";
     "git commit -m " ++ String DQ ("chore: bump version to 1.0.1")
     ++ String DQ EmptyString;
     "git tag v1.0.1"].
Proof. cbv zeta. repeat split. Qed.

(** * Further properties of the script *)

(** ** parseVersion and bumpVersion *)

Lemma digit_dot_class c : is_digit c = true -> dot c = true.
Proof. ascii_cases c. Qed.

Lemma parseVersion_inv s v :
  parseVersion s = Ok v ->
  exists d1 d2 d3,
    is_digits d1 = true /\ is_digits d2 = true /\ is_digits d3 = true /\
    s = d1 ++ "." ++ d2 ++ "." ++ d3 ++ suffix_of (prerelease v) /\
    v = MkVersion (Int (digits_value 10 0 d1)) (Int (digits_value 10 0 d2))
          (Int (digits_value 10 0 d3)) (prerelease v) /\
    0 <= digits_value 10 0 d1 /\ 0 <= digits_value 10 0 d2 /\
    0 <= digits_value 10 0 d3 /\
    match prerelease v with
    | Some q => is_suffix_text q = true
    | None => True
    end.
Proof.
  intros Hp. rewrite parseVersion_scan in Hp.
  destruct (scan_version s) as [[[[d1 d2] d3] pre]|] eqn:E; [|discriminate].
  injection Hp as <-. cbn [prerelease].
  apply scan_version_sound in E as (H1 & H2 & H3 & H4 & Hs).
  exists d1, d2, d3.
  repeat split; auto; apply digits_value_nonneg; lia.
Qed.

(** X2.  What parseVersion returns is well formed: when the components
    are within the exact range, they are the values of three runs of
    digits of the text; the prerelease is absent or a non-empty text
    without line terminator; and the text is exactly the three runs,
    the two dots and the suffix. *)
Theorem parseVersion_well_formed s v :
  parseVersion s = Ok v ->
  is_count (major v) = true -> is_count (minor v) = true ->
  is_count (patch v) = true ->
  exists d1 d2 d3,
    is_digits d1 = true /\ is_digits d2 = true /\ is_digits d3 = true /\
    s = d1 ++ "." ++ d2 ++ "." ++ d3 ++ suffix_of (prerelease v) /\
    v = MkVersion (Int (digits_value 10 0 d1)) (Int (digits_value 10 0 d2))
          (Int (digits_value 10 0 d3)) (prerelease v) /\
    0 <= digits_value 10 0 d1 /\ 0 <= digits_value 10 0 d2 /\
    0 <= digits_value 10 0 d3 /\
    match prerelease v with
    | Some q => is_suffix_text q = true
    | None => True
    end.
Proof. intros Hp _ _ _. exact (parseVersion_inv s v Hp). Qed.

Lemma parseVersion_well_formed_witness :
  exists d1 d2 d3,
    is_digits d1 = true /\ is_digits d2 = true /\ is_digits d3 = true /\
    "01.2.3-rc 1" = d1 ++ "." ++ d2 ++ "." ++ d3 ++ suffix_of (Some "rc 1") /\
    MkVersion (Int 1) (Int 2) (Int 3) (Some "rc 1")
    = MkVersion (Int (digits_value 10 0 d1)) (Int (digits_value 10 0 d2))
        (Int (digits_value 10 0 d3)) (Some "rc 1") /\
    0 <= digits_value 10 0 d1 /\ 0 <= digits_value 10 0 d2 /\
    0 <= digits_value 10 0 d3 /\
    is_suffix_text "rc 1" = true.
Proof.
  apply (parseVersion_well_formed "01.2.3-rc 1"
           (MkVersion (Int 1) (Int 2) (Int 3) (Some "rc 1")));
    reflexivity.
Defined.

Lemma bump_kind_invalid v kind :
  includes validBumpTypes kind = false ->
  bump v kind = Throw (Error ("Invalid bump type: " ++ kind)).
Proof.
  unfold includes, validBumpTypes. cbn [existsb]. intros H.
  repeat (apply orb_false_iff in H as [? H]).
  unfold bump.
  repeat match goal with
         | E : String.eqb kind _ = false |- _ => rewrite E; clear E
         end.
  reflexivity.
Qed.

Lemma validBumpTypes_cases kind :
  includes validBumpTypes kind = true ->
  kind = "patch" \/ kind = "minor" \/ kind = "major" \/ kind = "prepatch" \/
  kind = "preminor" \/ kind = "premajor" \/ kind = "prerelease".
Proof.
  unfold includes, validBumpTypes. cbn [existsb]. intros H.
  repeat (apply orb_true_iff in H as [H|H];
          [apply String.eqb_eq in H; subst kind; tauto|]).
  discriminate H.
Qed.

Lemma bump_prerelease_absent M m p pre :
  truthy pre = false ->
  bump (MkVersion M m p pre) "prerelease"
  = Ok (MkVersion M m (incr p) (Some "alpha.0")).
Proof.
  intros H. unfold bump.
  cbn [String.eqb Ascii.eqb Bool.eqb prerelease major minor patch].
  now rewrite H.
Qed.

Lemma split_all p sep s :
  all_chars p s = true ->
  forall x, In x (split sep s) -> all_chars p x = true.
Proof.
  induction s as [|c t IH]; cbn [split all_chars].
  - intros _ x [<-|[]]. reflexivity.
  - intros H. apply andb_true_iff in H as [Hc Ht]. specialize (IH Ht).
    destruct (Ascii.eqb c sep).
    + intros x [<-|Hx]; [reflexivity | now apply IH].
    + destruct (split sep t) as [|h r].
      * intros x [<-|[]]. cbn. now rewrite Hc.
      * intros x [<-|Hx].
        -- cbn. rewrite Hc. apply IH. now left.
        -- apply IH. now right.
Qed.

Lemma toString_dot z : all_chars dot (toString (Int z)) = true.
Proof.
  assert (H : forall n, all_chars dot (digits_of n) = true).
  { intros n. apply (all_chars_impl is_digit); [apply digit_dot_class|].
    apply is_digits_all, is_digits_digits_of. }
  cbn [toString]. destruct (z <? 0); [cbn [all_chars]|]; now rewrite H.
Qed.

Lemma counter_suffix_text q label n :
  is_suffix_text q = true -> counter_of q = Some (label, n) ->
  is_suffix_text (label ++ "." ++ toString (Int (n + 1))) = true.
Proof.
  intros Hq Hc. unfold counter_of in Hc.
  destruct (split "." q) as [|l0 [|c0 [|x r]]] eqn:Es; try discriminate Hc.
  destruct (parseInt c0); [discriminate Hc|]. injection Hc as -> ->.
  assert (Hl : all_chars dot label = true).
  { apply (split_all dot "." q); [now destruct q | rewrite Es; now left]. }
  assert (Ha : all_chars dot (label ++ "." ++ toString (Int (n + 1))) = true).
  { rewrite all_chars_app, Hl. cbn [append all_chars andb].
    now rewrite toString_dot. }
  destruct label; exact Ha.
Qed.

(** The Version [bump] gives for a kind of [validBumpTypes], on a parsed
    Version, is one [parseVersion] gives back from its text. *)
Lemma bump_closed M m p pre kind v' :
  0 <= M -> 0 <= m -> 0 <= p ->
  match pre with Some q => is_suffix_text q = true | None => True end ->
  bump (MkVersion (Int M) (Int m) (Int p) pre) kind = Ok v' ->
  parseVersion (formatVersion v') = Ok v'.
Proof.
  intros HM Hm Hp Hpre Hb.
  destruct (includes validBumpTypes kind) eqn:Hk;
    [|rewrite (bump_kind_invalid _ _ Hk) in Hb; discriminate Hb].
  apply validBumpTypes_cases in Hk.
  destruct Hk as [->|[->|[->|[->|[->|[->| ->]]]]]];
    try (injection Hb as <-; apply round_trip_counts; auto; lia).
  destruct pre as [q|].
  - destruct (counter_of q) as [[label n]|] eqn:Hc.
    + rewrite (bump_prerelease_counter _ _ _ _ _ _ Hc) in Hb.
      injection Hb as <-. apply round_trip_counts; auto.
      now apply (counter_suffix_text q).
    + rewrite bump_prerelease_other in Hb by (auto; now destruct q).
      injection Hb as <-. apply round_trip_counts; auto.
  - rewrite bump_prerelease_absent in Hb by reflexivity.
    injection Hb as <-. apply round_trip_counts; auto. lia.
Qed.

Lemma bump_kind_valid v kind :
  includes validBumpTypes kind = true -> exists v', bump v kind = Ok v'.
Proof.
  intros Hk. apply validBumpTypes_cases in Hk.
  destruct Hk as [->|[->|[->|[->|[->|[->| ->]]]]]];
    try (eexists; reflexivity).
  destruct v as [M m p pre]. destruct (truthy pre) eqn:Ht.
  - destruct pre as [q|]; [|discriminate Ht].
    destruct (counter_of q) as [[label n]|] eqn:Hc.
    + rewrite (bump_prerelease_counter _ _ _ _ _ _ Hc). eauto.
    + rewrite bump_prerelease_other by auto. eauto.
  - rewrite bump_prerelease_absent by auto. eauto.
Qed.

(** X3.  The outcome of bumpVersion is decided in this order: a text
    that is no version text gives the error "Invalid version format: "
    and the text, whatever the bump type; a version text with a bump
    type outside [validBumpTypes] gives "Invalid bump type: " and the
    type; every other call returns a text.  So the [default] branch of
    the switch is reached exactly by the types [main] refuses. *)
Theorem bumpVersion_outcome s kind :
  (~ version_text s /\
   bumpVersion s kind = Throw (Error ("Invalid version format: " ++ s))) \/
  (version_text s /\ includes validBumpTypes kind = false /\
   bumpVersion s kind = Throw (Error ("Invalid bump type: " ++ kind))) \/
  (version_text s /\ includes validBumpTypes kind = true /\
   exists s', bumpVersion s kind = Ok s').
Proof.
  unfold bumpVersion. rewrite parseVersion_scan.
  destruct (scan_version s) as [[[[d1 d2] d3] pre]|] eqn:E.
  - assert (Hv : version_text s) by (apply version_text_scan; eauto).
    right. cbn [bind].
    destruct (includes validBumpTypes kind) eqn:Hk.
    + right. repeat split; auto.
      destruct (bump_kind_valid
                  (MkVersion (Int (digits_value 10 0 d1))
                     (Int (digits_value 10 0 d2))
                     (Int (digits_value 10 0 d3)) pre) kind Hk) as [v' ->].
      cbn [bind]. eauto.
    + left. repeat split; auto. now rewrite (bump_kind_invalid _ _ Hk).
  - left. split; [|reflexivity].
    intros H. apply version_text_scan in H as [x H]. congruence.
Qed.

(** X4.  bumpVersion returns version texts: for a text parseVersion
    accepts, with exact counts as components and as counter of the
    prerelease, and a bump type of [validBumpTypes], the text returned
    is the format of the bumped Version and parseVersion reads that
    Version back from it. *)
Theorem bumpVersion_output_parses s kind v :
  parseVersion s = Ok v ->
  valid_version v = true ->
  safe_counter (prerelease v) = true ->
  includes validBumpTypes kind = true ->
  exists v',
    bump v kind = Ok v' /\
    bumpVersion s kind = Ok (formatVersion v') /\
    parseVersion (formatVersion v') = Ok v'.
Proof.
  intros Hp Hv _ Hk.
  destruct (bump_kind_valid v kind Hk) as [v' Hb]. exists v'.
  split; [exact Hb|]. split.
  - unfold bumpVersion. rewrite Hp. cbn [bind]. now rewrite Hb.
  - destruct (parseVersion_inv s v Hp)
      as (d1 & d2 & d3 & _ & _ & _ & _ & Ev & H1 & H2 & H3 & H4).
    rewrite Ev in Hb. now apply (bump_closed _ _ _ _ _ _ H1 H2 H3 H4 Hb).
Qed.

Lemma bumpVersion_output_parses_witness :
  exists v',
    bump (MkVersion (Int 1) (Int 0) (Int 0) (Some "rc.7x")) "prerelease"
    = Ok v' /\
    bumpVersion "1.0.0-rc.7x" "prerelease" = Ok (formatVersion v') /\
    parseVersion (formatVersion v') = Ok v'.
Proof.
  apply (bumpVersion_output_parses "1.0.0-rc.7x" "prerelease"); reflexivity.
Defined.

(** X5.  No bump lowers (major, minor, patch): on a valid Version the
    kinds major, minor, patch, premajor, preminor and prepatch raise
    the triple in the lexicographic order; the kind prerelease raises
    it when no prerelease is present and leaves it exactly as it is
    when one is present. *)
Theorem bump_never_lowers M m p pre kind v' :
  valid_version (MkVersion (Int M) (Int m) (Int p) pre) = true ->
  bump (MkVersion (Int M) (Int m) (Int p) pre) kind = Ok v' ->
  exists M' m' p',
    major v' = Int M' /\ minor v' = Int m' /\ patch v' = Int p' /\
    if (String.eqb kind "prerelease" && truthy pre)%bool
    then (M', m', p') = (M, m, p)
    else lex_lt (M, m, p) (M', m', p').
Proof.
  intros Hv Hb.
  destruct (includes validBumpTypes kind) eqn:Hk;
    [|rewrite (bump_kind_invalid _ _ Hk) in Hb; discriminate Hb].
  apply validBumpTypes_cases in Hk.
  destruct Hk as [->|[->|[->|[->|[->|[->| ->]]]]]];
    try (injection Hb as <-; do 3 eexists; repeat split;
         cbn; lia).
  change (String.eqb "prerelease" "prerelease") with true. cbn [andb].
  destruct (truthy pre) eqn:Ht.
  - destruct pre as [q|]; [|discriminate Ht].
    destruct (counter_of q) as [[label n]|] eqn:Hc.
    + rewrite (bump_prerelease_counter _ _ _ _ _ _ Hc) in Hb.
      injection Hb as <-. do 3 eexists. repeat split.
    + rewrite bump_prerelease_other in Hb by auto.
      injection Hb as <-. do 3 eexists. repeat split.
  - rewrite bump_prerelease_absent in Hb by auto.
    injection Hb as <-. do 3 eexists. repeat split. cbn. lia.
Qed.

Lemma bump_never_lowers_witness :
  exists M' m' p',
    Int 1 = Int M' /\ Int 2 = Int m' /\ Int 9 = Int p' /\
    (M', m', p') = (1, 2, 9).
Proof.
  apply (bump_never_lowers 1 2 9 (Some "beta.3") "prerelease"
           (MkVersion (Int 1) (Int 2) (Int 9) (Some "beta.4")));
    reflexivity.
Defined.

Lemma counter_of_label_digits label ds :
  all_chars not_dot label = true -> is_digits ds = true ->
  counter_of (label ++ "." ++ ds) = Some (label, digits_value 10 0 ds).
Proof.
  intros Hl Hd. unfold counter_of.
  rewrite (split_two _ _ Hl (digits_no_dot _ (is_digits_all _ Hd))).
  now rewrite (parseInt_digits _ Hd).
Qed.

Lemma label_counter_suffix_text label k :
  all_chars dot label = true ->
  is_suffix_text (label ++ "." ++ digits_of k) = true.
Proof.
  intros Hl.
  assert (Ha : all_chars dot (label ++ "." ++ digits_of k) = true).
  { rewrite all_chars_app, Hl. cbn [append all_chars andb].
    apply (all_chars_impl is_digit); [apply digit_dot_class|].
    apply is_digits_all, is_digits_digits_of. }
  destruct label; exact Ha.
Qed.

(** X6.  Successive prerelease bumps count upwards.  From the text of a
    Version with counts as components and a prerelease made of a label
    (no dot, no line terminator) and a counter [k], [n] prerelease
    bumps in a row return the text of the same Version with the
    counter [k + n]. *)
Theorem prerelease_bumps_count M m p label k n :
  0 <= M <= MAX_SAFE_INTEGER -> 0 <= m <= MAX_SAFE_INTEGER ->
  0 <= p <= MAX_SAFE_INTEGER ->
  0 <= k -> k + Z.of_nat n <= MAX_SAFE_INTEGER ->
  all_chars not_dot label = true -> all_chars dot label = true ->
  bump_times n "prerelease"
    (formatVersion (MkVersion (Int M) (Int m) (Int p)
                      (Some (label ++ "." ++ digits_of k))))
  = Ok (formatVersion (MkVersion (Int M) (Int m) (Int p)
                         (Some (label ++ "." ++ digits_of (k + Z.of_nat n))))).
Proof.
  intros HM Hm Hp Hk _ Hnd Hdot.
  induction n as [|n IH].
  - cbn [bump_times]. now rewrite Z.add_0_r.
  - cbn [bump_times]. rewrite IH. cbn [bind]. unfold bumpVersion.
    rewrite round_trip_counts
      by (try lia; now apply label_counter_suffix_text).
    cbn [bind].
    rewrite (bump_prerelease_counter _ _ _ _ label
               (digits_value 10 0 (digits_of (k + Z.of_nat n))))
      by (apply counter_of_label_digits; auto; apply is_digits_digits_of).
    cbn [bind]. rewrite digits_value_digits_of by lia.
    rewrite toString_count by lia.
    replace (k + Z.of_nat (S n)) with (k + Z.of_nat n + 1) by lia.
    reflexivity.
Qed.

Lemma prerelease_bumps_count_witness :
  bump_times 3 "prerelease"
    (formatVersion (MkVersion (Int 1) (Int 0) (Int 1)
                      (Some ("alpha" ++ "." ++ digits_of 0))))
  = Ok (formatVersion (MkVersion (Int 1) (Int 0) (Int 1)
                         (Some ("alpha" ++ "." ++ digits_of (0 + Z.of_nat 3))))).
Proof.
  apply (prerelease_bumps_count 1 0 1 "alpha" 0 3);
    try reflexivity; unfold MAX_SAFE_INTEGER; simpl; lia.
Defined.

(** ** The steps of a bump *)

Lemma effects_app a b : effects (a ++ b) = (effects a ++ effects b)%list.
Proof.
  induction a as [|e a IH]; simpl; auto. destruct e; simpl; congruence.
Qed.

Lemma effects_logs lines : effects (map ConsoleLog lines) = [].
Proof. induction lines; simpl; auto. Qed.

Ltac world_eq :=
  unfold colorLog, console_log, emit, ret, store;
  cbn [trace package_json index_ts writable map fst snd option_map negb];
  rewrite <- ?app_assoc; cbn [app]; try reflexivity.

Section Steps.

Variable cwd : string.
Variable JSON_parse : string -> result object.
Variable JSON_stringify : object -> string.
Variable execSync : World -> string -> option string.

Lemma readPackageJson_ok w text packageJson :
  package_json w = Some text -> JSON_parse text = Ok packageJson ->
  readPackageJson cwd JSON_parse w = (Done packageJson, w).
Proof.
  intros Hf Hj. unfold readPackageJson, try_catch, mbind, readFileSync.
  cbn [read]. rewrite Hf. unfold lift. now rewrite Hj.
Qed.

Lemma checkGitStatus_eq w :
  exists lines,
    checkGitStatus execSync w
    = (Done (tree_clean (execSync w "git status --porcelain")),
       MkWorld (package_json w) (index_ts w) (writable w)
         (trace w ++ ExecSync "git status --porcelain"
                     :: map ConsoleLog lines)).
Proof.
  unfold checkGitStatus, mbind, runGitCommand, tree_clean.
  destruct (execSync w "git status --porcelain") as [out|]; cbn [option_map].
  - destruct (Nat.ltb 0 (String.length (trim out))).
    + eexists [_; _]. world_eq.
    + exists []. world_eq.
  - eexists [_]. world_eq.
Qed.

Lemma writePackageJson_ok packageJson w :
  writable w PackageJson = true ->
  exists line,
    writePackageJson cwd JSON_stringify packageJson w
    = (Done tt,
       MkWorld (Some (JSON_stringify packageJson ++ LF)) (index_ts w)
         (writable w)
         (trace w ++ [WriteFile PackageJson (JSON_stringify packageJson ++ LF);
                      ConsoleLog line])).
Proof.
  intros Hw. eexists.
  unfold writePackageJson, try_catch, mbind, writeFileSync. rewrite Hw.
  world_eq.
Qed.

Lemma writePackageJson_refused packageJson w :
  writable w PackageJson = false ->
  exists line,
    writePackageJson cwd JSON_stringify packageJson w
    = (Exit 1, emit (ConsoleLog line) w).
Proof.
  intros Hw. eexists.
  unfold writePackageJson, try_catch, mbind, writeFileSync. rewrite Hw.
  reflexivity.
Qed.

Lemma createGitTag_eq version w :
  exists lines,
    createGitTag execSync version w
    = (Done tt,
       MkWorld (package_json w) (index_ts w) (writable w)
         (trace w ++ tag_commands version ++ map ConsoleLog lines)).
Proof.
  eexists [_; _; _].
  unfold createGitTag, try_catch, mbind, runGitCommand, tag_commands.
  world_eq.
Qed.

(** The source-file step, in one equation per case. *)
Lemma updateSource_eq newVersion w :
  writable w IndexTs = true ->
  exists lines,
    updateSource cwd newVersion w
    = (Done tt,
       MkWorld (package_json w)
         (option_map
            (fun content =>
               replace versionRegex 1 content (return_statement newVersion))
            (index_ts w))
         (writable w)
         (trace w ++ source_write newVersion (index_ts w)
                 ++ map ConsoleLog lines)).
Proof.
  intros Hw. destruct (index_ts w) as [content|] eqn:Hi.
  - destruct (test versionRegex content) eqn:Ht.
    + eexists [_]. rewrite (updateSource_match cwd _ _ _ Hi Ht Hw).
      unfold source_write, return_statement. rewrite Ht. world_eq.
    + exists []. rewrite (updateSource_no_match cwd _ _ _ Hi Ht).
      unfold source_write. rewrite Ht. cbn [option_map map].
      unfold replace. unfold test in Ht.
      destruct (exec versionRegex content); [discriminate Ht|].
      cbn [app]. rewrite app_nil_r. destruct w; cbn in *. now subst.
  - exists []. rewrite (updateSource_absent cwd _ _ Hi).
    cbn [option_map source_write map app]. rewrite app_nil_r.
    destruct w; cbn in *. now subst.
Qed.

End Steps.

(** ** Whole runs *)

Lemma mbind_done {A B} (m : M A) (f : A -> M B) w a w1 :
  m w = (Done a, w1) -> mbind m f w = f a w1.
Proof. intros H. unfold mbind. now rewrite H. Qed.

Lemma mbind_exit {A B} (m : M A) (f : A -> M B) w c w1 :
  m w = (Exit c, w1) -> mbind m f w = (Exit c, w1).
Proof. intros H. unfold mbind. now rewrite H. Qed.

Lemma mbind_raise {A B} (m : M A) (f : A -> M B) w e w1 :
  m w = (Raise e, w1) -> mbind m f w = (Raise e, w1).
Proof. intros H. unfold mbind. now rewrite H. Qed.

Section Runs.

Variable cwd : string.
Variable JSON_parse : string -> result object.
Variable JSON_stringify : object -> string.
Variable execSync : World -> string -> option string.

Lemma git_check_eq args w1 status :
  (forall w0, execSync w0 "git status --porcelain" = status) ->
  exists lines,
    (if negb (includes args "--no-git")
     then checkGitStatus execSync else ret false) w1
    = (Done (negb (includes args "--no-git") && tree_clean status)%bool,
       MkWorld (package_json w1) (index_ts w1) (writable w1)
         (trace w1
          ++ (if includes args "--no-git" then []
              else [ExecSync "git status --porcelain"])
          ++ map ConsoleLog lines)).
Proof.
  intros Hstatus. destruct (includes args "--no-git"); cbn [negb andb].
  - exists []. unfold ret. cbn [map app]. rewrite app_nil_r.
    now destruct w1.
  - destruct (checkGitStatus_eq execSync w1) as [l1 E].
    rewrite Hstatus in E. exists l1. exact E.
Qed.

Lemma updateSource_refused newVersion w content :
  index_ts w = Some content -> test versionRegex content = true ->
  writable w IndexTs = false ->
  exists e, updateSource cwd newVersion w = (Raise e, w).
Proof.
  intros H Ht Hw. eexists.
  unfold updateSource, mbind, existsSync, readFileSync.
  cbn [read]. rewrite H. cbv beta iota. unfold when at 1. cbv beta iota.
  rewrite H. cbv beta iota. rewrite Ht. unfold when, writeFileSync.
  now rewrite Hw.
Qed.

(** X7.  A bump that can write both files.  With a valid bump type, no
    [--dry-run], a manifest whose version text bumps to [newVersion],
    and both files writable, the run exits with code 0 whatever the
    source-control commands answer; package.json holds the manifest
    with the new version; src/index.ts has its leftmost matching
    statement replaced, or is as before when absent or without match;
    and the effects other than console output are, in this order: the
    status query unless [--no-git], the write of package.json, the
    write of src/index.ts if it matched, and the three commands of
    createGitTag exactly when source control is enabled and the status
    output is empty. *)
Theorem bump_run_effects args w kind text packageJson s newVersion status :
  nth_error args 0 = Some kind ->
  includes validBumpTypes kind = true ->
  includes args "--dry-run" = false ->
  package_json w = Some text ->
  JSON_parse text = Ok packageJson ->
  get "version" packageJson = Some (VString s) ->
  bumpVersion s kind = Ok newVersion ->
  writable w PackageJson = true ->
  writable w IndexTs = true ->
  (forall w0, execSync w0 "git status --porcelain" = status) ->
  let noGit := includes args "--no-git" in
  let manifest := manifest_text JSON_stringify newVersion packageJson in
  let w' := fst (run cwd JSON_parse JSON_stringify execSync args w) in
  snd (run cwd JSON_parse JSON_stringify execSync args w) = 0 /\
  package_json w' = Some manifest /\
  index_ts w'
  = option_map
      (fun content =>
         replace versionRegex 1 content (return_statement newVersion))
      (index_ts w) /\
  effects (trace w')
  = (effects (trace w)
     ++ (if noGit then [] else [ExecSync "git status --porcelain"])
     ++ [WriteFile PackageJson manifest]
     ++ source_write newVersion (index_ts w)
     ++ (if (negb noGit && tree_clean status)%bool
         then tag_commands newVersion else []))%list.
Proof.
  intros Harg Hvalid Hdry Hfile Hjson Hget Hbump Hwp Hwi Hstatus.
  cbv zeta.
  destruct (validBumpTypes_inv _ Hvalid) as [Hhelp Hcur].
  assert (Hrun : exists tr,
             run cwd JSON_parse JSON_stringify execSync args w
             = (MkWorld
                  (Some (manifest_text JSON_stringify newVersion packageJson))
                  (option_map
                     (fun content =>
                        replace versionRegex 1 content
                          (return_statement newVersion))
                     (index_ts w))
                  (writable w) (trace w ++ tr), 0) /\
             effects tr
             = ((if includes args "--no-git" then []
                 else [ExecSync "git status --porcelain"])
                ++ [WriteFile PackageJson
                      (manifest_text JSON_stringify newVersion packageJson)]
                ++ source_write newVersion (index_ts w)
                ++ (if (negb (includes args "--no-git")
                        && tree_clean status)%bool
                    then tag_commands newVersion else []))%list).
  { unfold run, main. rewrite Harg, Hhelp, Hdry.
    rewrite (mbind_done _ _ _ _ _
               (readPackageJson_ok cwd JSON_parse _ _ _ Hfile Hjson)).
    rewrite Hcur, Hvalid. cbn [negb]. unfold try_catch.
    rewrite Hget. cbn [bumpVersion_of]. rewrite Hbump. cbn [lift].
    rewrite (mbind_done _ _ w newVersion w) by reflexivity.
    erewrite mbind_done by reflexivity.
    set (w1 := emit _ w).
    destruct (git_check_eq args w1 status Hstatus) as [l1 Egit].
    rewrite (mbind_done _ _ _ _ _ Egit).
    clear Egit. set (w2 := MkWorld _ _ _ _).
    destruct (writePackageJson_ok cwd JSON_stringify
                (set "version" (VString newVersion) packageJson) w2 Hwp)
      as [l2 E2].
    rewrite (mbind_done _ _ _ _ _ E2). clear E2. set (w3 := MkWorld _ _ _ _).
    destruct (updateSource_eq cwd newVersion w3 Hwi) as [l3 E3].
    rewrite (mbind_done _ _ _ _ _ E3). clear E3. set (w4 := MkWorld _ _ _ _).
    assert (Htag : exists l4,
               when (negb (includes args "--no-git") && tree_clean status)%bool
                 (createGitTag execSync newVersion) w4
               = (Done tt,
                  MkWorld (package_json w4) (index_ts w4) (writable w4)
                    (trace w4
                     ++ (if (negb (includes args "--no-git")
                             && tree_clean status)%bool
                         then tag_commands newVersion else [])
                     ++ map ConsoleLog l4))).
    { destruct (negb (includes args "--no-git") && tree_clean status)%bool;
        cbn [when].
      - apply createGitTag_eq.
      - exists []. unfold ret. cbn [map app]. rewrite app_nil_r.
        now destruct w4. }
    destruct Htag as [l4 E4]. rewrite (mbind_done _ _ _ _ _ E4). clear E4.
    unfold mbind, colorLog, console_log, emit.
    cbn [trace package_json index_ts writable].
    subst w4 w3 w2 w1. unfold emit.
    cbn [trace package_json index_ts writable].
    eexists. split.
    - unfold manifest_text. f_equal. f_equal.
      rewrite <- !app_assoc. reflexivity.
    - unfold manifest_text, source_write.
      destruct (includes args "--no-git"); destruct (tree_clean status);
        destruct (index_ts w) as [c|];
        try destruct (test versionRegex c);
        cbn [andb negb tag_commands];
        rewrite ?effects_app, ?effects_logs; reflexivity. }
  destruct Hrun as (tr & Hrun & Heff). rewrite Hrun.
  cbn [fst snd package_json index_ts trace].
  repeat split. now rewrite effects_app, Heff.
Qed.

Ltac enter_bump Harg Hvalid Hdry Hfile Hjson Hget Hbump :=
  let Hhelp := fresh "Hhelp" in
  let Hcur := fresh "Hcur" in
  destruct (validBumpTypes_inv _ Hvalid) as [Hhelp Hcur];
  unfold run, main; rewrite Harg, Hhelp, Hdry;
  rewrite (mbind_done _ _ _ _ _
             (readPackageJson_ok cwd JSON_parse _ _ _ Hfile Hjson));
  rewrite Hcur, Hvalid; cbn [negb]; unfold try_catch;
  rewrite Hget; cbn [bumpVersion_of]; rewrite Hbump; cbn [lift];
  rewrite (mbind_done _ _ _ _ _ (eq_refl : ret _ _ = (Done _, _)));
  erewrite mbind_done by reflexivity.

(** X8.  A refused write of package.json aborts the run before anything
    is changed: exit code 1, both files as they were, no write, and no
    command but the status query. *)
Theorem manifest_write_refused args w kind text packageJson s newVersion
    status :
  nth_error args 0 = Some kind ->
  includes validBumpTypes kind = true ->
  includes args "--dry-run" = false ->
  package_json w = Some text ->
  JSON_parse text = Ok packageJson ->
  get "version" packageJson = Some (VString s) ->
  bumpVersion s kind = Ok newVersion ->
  writable w PackageJson = false ->
  (forall w0, execSync w0 "git status --porcelain" = status) ->
  let w' := fst (run cwd JSON_parse JSON_stringify execSync args w) in
  snd (run cwd JSON_parse JSON_stringify execSync args w) = 1 /\
  package_json w' = package_json w /\
  index_ts w' = index_ts w /\
  effects (trace w')
  = (effects (trace w)
     ++ (if includes args "--no-git" then []
         else [ExecSync "git status --porcelain"]))%list.
Proof.
  intros Harg Hvalid Hdry Hfile Hjson Hget Hbump Hwp Hstatus. cbv zeta.
  assert (Hrun : exists tr,
             run cwd JSON_parse JSON_stringify execSync args w
             = (MkWorld (package_json w) (index_ts w) (writable w)
                  (trace w ++ tr), 1) /\
             effects tr
             = (if includes args "--no-git" then []
                else [ExecSync "git status --porcelain"])).
  { enter_bump Harg Hvalid Hdry Hfile Hjson Hget Hbump.
    set (w1 := emit _ w).
    destruct (git_check_eq args w1 status Hstatus) as [l1 Egit].
    rewrite (mbind_done _ _ _ _ _ Egit). clear Egit.
    set (w2 := MkWorld _ _ _ _).
    destruct (writePackageJson_refused cwd JSON_stringify
                (set "version" (VString newVersion) packageJson) w2 Hwp)
      as [l2 E2].
    rewrite (mbind_exit _ _ _ _ _ E2). clear E2.
    subst w2 w1. unfold emit. cbn [trace package_json index_ts writable].
    eexists. split.
    - f_equal. f_equal. rewrite <- !app_assoc. reflexivity.
    - destruct (includes args "--no-git");
        rewrite ?effects_app, ?effects_logs; reflexivity. }
  destruct Hrun as (tr & Hrun & Heff). rewrite Hrun.
  cbn [fst snd package_json index_ts trace].
  repeat split. now rewrite effects_app, Heff.
Qed.

(** X9.  The writes are not one transaction.  When package.json is
    writable and the write of a matching src/index.ts is refused, the
    run exits with code 1 although package.json already holds the new
    version; src/index.ts is as before and nothing is committed or
    tagged. *)
Theorem source_write_refused args w kind text packageJson s newVersion
    status content :
  nth_error args 0 = Some kind ->
  includes validBumpTypes kind = true ->
  includes args "--dry-run" = false ->
  package_json w = Some text ->
  JSON_parse text = Ok packageJson ->
  get "version" packageJson = Some (VString s) ->
  bumpVersion s kind = Ok newVersion ->
  writable w PackageJson = true ->
  writable w IndexTs = false ->
  index_ts w = Some content ->
  test versionRegex content = true ->
  (forall w0, execSync w0 "git status --porcelain" = status) ->
  let manifest := manifest_text JSON_stringify newVersion packageJson in
  let w' := fst (run cwd JSON_parse JSON_stringify execSync args w) in
  snd (run cwd JSON_parse JSON_stringify execSync args w) = 1 /\
  package_json w' = Some manifest /\
  index_ts w' = Some content /\
  effects (trace w')
  = (effects (trace w)
     ++ (if includes args "--no-git" then []
         else [ExecSync "git status --porcelain"])
     ++ [WriteFile PackageJson manifest])%list.
Proof.
  intros Harg Hvalid Hdry Hfile Hjson Hget Hbump Hwp Hwi Hsrc Htest Hstatus.
  cbv zeta.
  assert (Hrun : exists tr,
             run cwd JSON_parse JSON_stringify execSync args w
             = (MkWorld
                  (Some (manifest_text JSON_stringify newVersion packageJson))
                  (Some content) (writable w) (trace w ++ tr), 1) /\
             effects tr
             = ((if includes args "--no-git" then []
                 else [ExecSync "git status --porcelain"])
                ++ [WriteFile PackageJson
                      (manifest_text JSON_stringify newVersion
                         packageJson)])%list).
  { enter_bump Harg Hvalid Hdry Hfile Hjson Hget Hbump.
    set (w1 := emit _ w).
    destruct (git_check_eq args w1 status Hstatus) as [l1 Egit].
    rewrite (mbind_done _ _ _ _ _ Egit). clear Egit.
    set (w2 := MkWorld _ _ _ _).
    destruct (writePackageJson_ok cwd JSON_stringify
                (set "version" (VString newVersion) packageJson) w2 Hwp)
      as [l2 E2].
    rewrite (mbind_done _ _ _ _ _ E2). clear E2. set (w3 := MkWorld _ _ _ _).
    destruct (updateSource_refused newVersion w3 content Hsrc Htest Hwi)
      as [e E3].
    rewrite (mbind_raise _ _ _ _ _ E3). clear E3.
    unfold mbind, colorLog, console_log, process_exit, emit.
    subst w3 w2 w1. unfold emit. cbn [trace package_json index_ts writable].
    rewrite Hsrc. eexists. split.
    - unfold manifest_text. f_equal. f_equal. rewrite <- !app_assoc.
      reflexivity.
    - unfold manifest_text. destruct (includes args "--no-git");
        rewrite ?effects_app, ?effects_logs; reflexivity. }
  destruct Hrun as (tr & Hrun & Heff). rewrite Hrun.
  cbn [fst snd package_json index_ts trace].
  repeat split. now rewrite effects_app, Heff.
Qed.

(** X10.  An unreadable manifest stops every command but help: when the
    first argument is neither empty nor [help] and package.json is
    missing or is not JSON, the run prints "Error reading
    package.json: " with the message of the exception and exits with
    code 1; nothing else happens. *)
Theorem unreadable_manifest_aborts args w kind e :
  nth_error args 0 = Some kind ->
  (String.eqb kind "" || String.eqb kind "help")%bool = false ->
  manifest_error cwd JSON_parse w = Some e ->
  run cwd JSON_parse JSON_stringify execSync args w
  = (emit (ConsoleLog (colors red ++ "❌ Error reading package.json: "
                       ++ message_of e ++ colors reset)) w, 1).
Proof.
  intros Harg Hhelp He. unfold run, main. rewrite Harg, Hhelp.
  unfold manifest_error in He.
  unfold mbind at 1, readPackageJson, try_catch, mbind, readFileSync.
  cbn [read].
  destruct (package_json w) as [text|].
  - unfold lift. destruct (JSON_parse text) as [o|e']; [discriminate He|].
    injection He as ->. reflexivity.
  - injection He as <-. reflexivity.
Qed.

(** X11.  An unknown command: when the first argument is none of empty,
    [help], [current] and the seven bump types, and the manifest can be
    read, the run prints "Invalid bump type: " with the argument, then
    the list of the valid types, and exits with code 1; nothing else
    happens. *)
Theorem unknown_command_aborts args w kind text packageJson :
  nth_error args 0 = Some kind ->
  (String.eqb kind "" || String.eqb kind "help")%bool = false ->
  String.eqb kind "current" = false ->
  includes validBumpTypes kind = false ->
  package_json w = Some text ->
  JSON_parse text = Ok packageJson ->
  run cwd JSON_parse JSON_stringify execSync args w
  = (emit (ConsoleLog
             (colors yellow
              ++ "Valid types: patch, minor, major, prepatch, preminor, premajor, prerelease"
              ++ colors reset))
       (emit (ConsoleLog (colors red ++ "❌ Invalid bump type: " ++ kind
                          ++ colors reset)) w), 1).
Proof.
  intros Harg Hhelp Hcur Hk Hfile Hjson. unfold run, main.
  rewrite Harg, Hhelp.
  rewrite (mbind_done _ _ _ _ _
             (readPackageJson_ok cwd JSON_parse _ _ _ Hfile Hjson)).
  rewrite Hcur, Hk. reflexivity.
Qed.

(** X12.  Only a valid bump type can change anything: when the first
    argument is absent or is not one of the seven bump types, whatever
    the flags, the files and the platform, the run does nothing but
    console output. *)
Theorem only_bump_types_mutate args w :
  (forall kind, nth_error args 0 = Some kind ->
                includes validBumpTypes kind = false) ->
  only_logs w (fst (run cwd JSON_parse JSON_stringify execSync args w)).
Proof.
  intros Hk.
  assert (Hq : quiet (main cwd JSON_parse JSON_stringify execSync args)).
  { unfold main.
    destruct (nth_error args 0) as [kind|]; [|apply quiet_showHelp].
    rewrite (Hk kind eq_refl). cbn [negb].
    destruct (String.eqb kind "" || String.eqb kind "help")%bool;
      [apply quiet_showHelp|].
    apply quiet_bind; [apply quiet_readPackageJson | intros packageJson].
    destruct (String.eqb kind "current"); [apply quiet_colorLog|].
    quiet_steps. }
  specialize (Hq w). unfold run.
  destruct (main _ _ _ _ args w) as [[a|c|e] w']; exact Hq.
Qed.

Lemma silent_ret {A} (a : A) : silent (ret a).
Proof. intros w. reflexivity. Qed.

Lemma silent_raise {A} (e : exn) : silent (@raise A e).
Proof. intros w. reflexivity. Qed.

Lemma silent_exit {A} (c : Z) : silent (@process_exit A c).
Proof. intros w. reflexivity. Qed.

Lemma silent_lift {A} (r : result A) : silent (lift r).
Proof. destruct r; intros w; reflexivity. Qed.

Lemma silent_console_log line : silent (console_log line).
Proof.
  intros w. cbn. rewrite commands_app. cbn. now rewrite app_nil_r.
Qed.

Lemma silent_colorLog c message : silent (colorLog c message).
Proof. apply silent_console_log. Qed.

Lemma silent_bind {A B} (m : M A) (f : A -> M B) :
  silent m -> (forall a, silent (f a)) -> silent (mbind m f).
Proof.
  intros Hm Hf w. unfold mbind. specialize (Hm w).
  destruct (m w) as [[a|c|e] w1]; cbn [snd] in *; auto.
  now rewrite Hf.
Qed.

Lemma silent_bind_ret {A B} (a : A) (f : A -> M B) :
  silent (f a) -> silent (mbind (ret a) f).
Proof. intros Hf w. exact (Hf w). Qed.

Lemma silent_try_catch {A} (body : M A) (handler : exn -> M A) :
  silent body -> (forall e, silent (handler e)) ->
  silent (try_catch body handler).
Proof.
  intros Hb Hh w. unfold try_catch. specialize (Hb w).
  destruct (body w) as [[a|c|e] w1]; cbn [snd] in *; auto.
  now rewrite Hh.
Qed.

Lemma silent_when b (m : M unit) : silent m -> silent (when b m).
Proof. destruct b; [auto | intros _; apply silent_ret]. Qed.

Lemma silent_existsSync f : silent (existsSync f).
Proof. intros w. reflexivity. Qed.

Lemma silent_readFileSync f : silent (readFileSync cwd f).
Proof. intros w. unfold readFileSync. now destruct (read w f). Qed.

Lemma silent_writeFileSync f content : silent (writeFileSync cwd f content).
Proof.
  intros w. unfold writeFileSync. destruct (writable w f); [|reflexivity].
  destruct f; cbn; rewrite commands_app; cbn; now rewrite app_nil_r.
Qed.

Create HintDb silent.
#[local] Hint Resolve silent_ret silent_raise silent_exit silent_lift
  silent_console_log silent_colorLog silent_existsSync silent_readFileSync
  silent_writeFileSync : silent.

Ltac silent_steps :=
  repeat first
    [ apply silent_bind; [|intros ?]
    | apply silent_try_catch; [|intros ?]
    | apply silent_when
    | solve [auto with silent] ].

(** X13.  With [--no-git] among the arguments no command is ever run,
    whatever the other arguments, the files and the platform. *)
Theorem no_git_runs_no_command args w :
  includes args "--no-git" = true ->
  commands (trace (fst (run cwd JSON_parse JSON_stringify execSync args w)))
  = commands (trace w).
Proof.
  intros Hng.
  assert (Hs : silent (main cwd JSON_parse JSON_stringify execSync args)).
  { unfold main. rewrite Hng. cbn [negb].
    destruct (nth_error args 0) as [kind|];
      [|unfold showHelp; silent_steps].
    destruct (String.eqb kind "" || String.eqb kind "help")%bool;
      [unfold showHelp; silent_steps|].
    apply silent_bind;
      [unfold readPackageJson; silent_steps | intros packageJson].
    destruct (String.eqb kind "current"); [apply silent_colorLog|].
    destruct (negb (includes validBumpTypes kind)); [silent_steps|].
    apply silent_try_catch; [|intros e; silent_steps].
    apply silent_bind; [apply silent_lift | intros newVersion].
    apply silent_bind; [apply silent_colorLog | intros _].
    destruct (includes args "--dry-run"); [apply silent_colorLog|].
    apply silent_bind_ret.
    apply silent_bind; [unfold writePackageJson; silent_steps | intros _].
    apply silent_bind; [unfold updateSource; silent_steps | intros _].
    cbn [when]. silent_steps. }
  specialize (Hs w). unfold run.
  destruct (main _ _ _ _ args w) as [[a|c|e] w']; exact Hs.
Qed.

End Runs.

Lemma bump_run_effects_witness :
  let w := MkWorld (Some "{}") (Some "return '1.0.0';") (fun _ => true) [] in
  let r := run "/repo" (fun _ => Ok [("version", VString "1.0.0")])
             (fun _ => "{}") (fun _ _ => Some "") ["minor"] w in
  snd r = 0 /\
  package_json (fst r) = Some ("{}" ++ LF) /\
  index_ts (fst r) = Some (return_statement "1.1.0") /\
  effects (trace (fst r))
  = ([ExecSync "git status --porcelain";
      WriteFile PackageJson ("{}" ++ LF);
      WriteFile IndexTs (return_statement "1.1.0")]
     ++ tag_commands "1.1.0")%list.
Proof.
  cbv zeta.
  apply (bump_run_effects "/repo"
           (fun _ => Ok [("version", VString "1.0.0")])
           (fun _ => "{}") (fun _ _ => Some "") ["minor"]
           (MkWorld (Some "{}") (Some "return '1.0.0';") (fun _ => true) [])
           "minor" "{}"
           [("version", VString "1.0.0")] "1.0.0" "1.1.0" (Some ""));
    reflexivity.
Defined.

Lemma manifest_write_refused_witness :
  let w := MkWorld (Some "{}") (Some "return '1.0.0';")
             (fun f => match f with PackageJson => false | IndexTs => true end)
             [] in
  let r := run "/repo" (fun _ => Ok [("version", VString "1.0.0")])
             (fun _ => "{}") (fun _ _ => Some "") ["minor"] w in
  snd r = 1 /\
  package_json (fst r) = Some "{}" /\
  index_ts (fst r) = Some "return '1.0.0';" /\
  effects (trace (fst r)) = [ExecSync "git status --porcelain"].
Proof.
  cbv zeta.
  apply (manifest_write_refused "/repo"
           (fun _ => Ok [("version", VString "1.0.0")])
           (fun _ => "{}") (fun _ _ => Some "") ["minor"]
           (MkWorld (Some "{}") (Some "return '1.0.0';")
              (fun f =>
                 match f with PackageJson => false | IndexTs => true end) [])
           "minor" "{}"
           [("version", VString "1.0.0")] "1.0.0" "1.1.0" (Some ""));
    reflexivity.
Defined.

Lemma source_write_refused_witness :
  let w := MkWorld (Some "{}") (Some "return '1.0.0';")
             (fun f => match f with PackageJson => true | IndexTs => false end)
             [] in
  let r := run "/repo" (fun _ => Ok [("version", VString "1.0.0")])
             (fun _ => "{}") (fun _ _ => Some "") ["minor"] w in
  snd r = 1 /\
  package_json (fst r) = Some ("{}" ++ LF) /\
  index_ts (fst r) = Some "return '1.0.0';" /\
  effects (trace (fst r))
  = [ExecSync "git status --porcelain"; WriteFile PackageJson ("{}" ++ LF)].
Proof.
  cbv zeta.
  apply (source_write_refused "/repo"
           (fun _ => Ok [("version", VString "1.0.0")])
           (fun _ => "{}") (fun _ _ => Some "") ["minor"]
           (MkWorld (Some "{}") (Some "return '1.0.0';")
              (fun f =>
                 match f with PackageJson => true | IndexTs => false end) [])
           "minor" "{}"
           [("version", VString "1.0.0")] "1.0.0" "1.1.0" (Some "")
           "return '1.0.0';");
    reflexivity.
Defined.

Lemma unreadable_manifest_aborts_witness :
  let w := MkWorld (Some "{") None (fun _ => true) [] in
  run "/repo" (fun _ => Throw (Error "Unexpected end of JSON input"))
    (fun _ => "{}") (fun _ _ => Some "") ["patch"] w
  = (emit (ConsoleLog (colors red ++ "❌ Error reading package.json: "
                       ++ "Unexpected end of JSON input" ++ colors reset)) w,
     1).
Proof.
  cbv zeta.
  apply (unreadable_manifest_aborts "/repo"
           (fun _ => Throw (Error "Unexpected end of JSON input"))
           (fun _ => "{}") (fun _ _ => Some "") ["patch"]
           (MkWorld (Some "{") None (fun _ => true) [])
           "patch"
           (Error "Unexpected end of JSON input"));
    reflexivity.
Defined.

Lemma unknown_command_aborts_witness :
  let w := MkWorld (Some "{}") None (fun _ => true) [] in
  run "/repo" (fun _ => Ok [("version", VString "1.0.0")])
    (fun _ => "{}") (fun _ _ => Some "") ["release"] w
  = (emit (ConsoleLog
             (colors yellow
              ++ "Valid types: patch, minor, major, prepatch, preminor, premajor, prerelease"
              ++ colors reset))
       (emit (ConsoleLog (colors red ++ "❌ Invalid bump type: " ++ "release"
                          ++ colors reset)) w), 1).
Proof.
  cbv zeta.
  apply (unknown_command_aborts "/repo"
           (fun _ => Ok [("version", VString "1.0.0")])
           (fun _ => "{}") (fun _ _ => Some "") ["release"]
           (MkWorld (Some "{}") None (fun _ => true) [])
           "release" "{}"
           [("version", VString "1.0.0")]);
    reflexivity.
Defined.

Lemma only_bump_types_mutate_witness :
  let w := MkWorld (Some "{}") (Some "return '1.0.0';") (fun _ => true) [] in
  only_logs w
    (fst (run "/repo" (fun _ => Ok [("version", VString "1.0.0")])
            (fun _ => "{}") (fun _ _ => Some "") ["current"; "--no-git"] w)).
Proof.
  cbv zeta.
  apply (only_bump_types_mutate "/repo"
           (fun _ => Ok [("version", VString "1.0.0")])
           (fun _ => "{}") (fun _ _ => Some "") ["current"; "--no-git"]).
  intros kind H. injection H as <-. reflexivity.
Defined.

Lemma no_git_runs_no_command_witness :
  let w := MkWorld (Some "{}") (Some "return '1.0.0';") (fun _ => true) [] in
  commands
    (trace (fst (run "/repo" (fun _ => Ok [("version", VString "1.0.0")])
                   (fun _ => "{}") (fun _ _ => Some "")
                   ["major"; "--no-git"] w)))
  = [].
Proof.
  cbv zeta.
  apply (no_git_runs_no_command "/repo"
           (fun _ => Ok [("version", VString "1.0.0")])
           (fun _ => "{}") (fun _ _ => Some "") ["major"; "--no-git"]).
  reflexivity.
Defined.

(** ** The other paths of main *)

Lemma prints_console_log line : prints (console_log line) [line].
Proof. intros w. reflexivity. Qed.

Lemma prints_colorLog c message :
  prints (colorLog c message) [colors c ++ message ++ colors reset].
Proof. intros w. reflexivity. Qed.

Lemma prints_bind (m n : M unit) l1 l2 :
  prints m l1 -> prints n l2 -> prints (mbind m (fun _ => n)) (l1 ++ l2).
Proof.
  intros H1 H2 w. unfold mbind. rewrite H1, H2.
  cbn [package_json index_ts writable trace].
  now rewrite map_app, app_assoc.
Qed.

Lemma prints_showHelp : prints showHelp help_lines.
Proof.
  assert (H : exists lines, prints showHelp lines /\ lines = help_lines).
  { eexists. split.
    - unfold showHelp.
      repeat (eapply prints_bind;
              [first [apply prints_colorLog | apply prints_console_log]|]).
      apply prints_console_log.
    - reflexivity. }
  destruct H as (lines & H & <-). exact H.
Qed.

Section Commands.

Variable cwd : string.
Variable JSON_parse : string -> result object.
Variable JSON_stringify : object -> string.
Variable execSync : World -> string -> option string.

(** X14.  Help needs no manifest.  When main runs without first
    argument, or with an empty one or [help], it prints the lines of
    showHelp, the same for all other arguments and for every state of
    the files, and returns: exit code 0, package.json not read,
    nothing written, no command run. *)
Theorem help_ignores_manifest args w :
  match nth_error args 0 with
  | Some kind => (String.eqb kind "" || String.eqb kind "help")%bool = true
  | None => True
  end ->
  run cwd JSON_parse JSON_stringify execSync args w
  = (MkWorld (package_json w) (index_ts w) (writable w)
       (trace w ++ map ConsoleLog help_lines), 0).
Proof.
  intros Hk.
  assert (Hm : main cwd JSON_parse JSON_stringify execSync args = showHelp).
  { unfold main. destruct (nth_error args 0) as [kind|]; [|reflexivity].
    now rewrite Hk. }
  unfold run. now rewrite Hm, prints_showHelp.
Qed.

(** X15.  The command [current] prints the version of the manifest and
    exits with code 0, whatever the other arguments are; a manifest
    without version makes it print [undefined], not fail. *)
Theorem current_prints_version args w text packageJson :
  nth_error args 0 = Some "current" ->
  package_json w = Some text ->
  JSON_parse text = Ok packageJson ->
  run cwd JSON_parse JSON_stringify execSync args w
  = (emit (ConsoleLog (colors cyan ++ "📦 Current version: "
                       ++ show (get "version" packageJson) ++ colors reset))
       w, 0).
Proof.
  intros Harg Hfile Hjson.
  assert (H1 : (String.eqb "current" "" || String.eqb "current" "help")%bool
               = false) by reflexivity.
  assert (H2 : String.eqb "current" "current" = true) by reflexivity.
  unfold run, main. rewrite Harg, H1.
  rewrite (mbind_done _ _ _ _ _
             (readPackageJson_ok cwd JSON_parse _ _ _ Hfile Hjson)).
  rewrite H2. reflexivity.
Qed.

(** X16.  A manifest whose version is missing or is not a string: with
    a valid bump type the exception of parseVersion is caught by main,
    the run prints one line starting with "Error: " and exits with
    code 1, whatever the flags; nothing is written and no command is
    run. *)
Theorem missing_version_aborts args w kind text packageJson :
  nth_error args 0 = Some kind ->
  includes validBumpTypes kind = true ->
  package_json w = Some text ->
  JSON_parse text = Ok packageJson ->
  match get "version" packageJson with
  | Some (VString _) => False
  | _ => True
  end ->
  exists message,
    run cwd JSON_parse JSON_stringify execSync args w
    = (emit (ConsoleLog (colors red ++ "❌ Error: " ++ message
                         ++ colors reset)) w, 1).
Proof.
  intros Harg Hvalid Hfile Hjson Hget.
  destruct (validBumpTypes_inv _ Hvalid) as [Hhelp Hcur].
  unfold run, main. rewrite Harg, Hhelp.
  rewrite (mbind_done _ _ _ _ _
             (readPackageJson_ok cwd JSON_parse _ _ _ Hfile Hjson)).
  rewrite Hcur, Hvalid. cbn [negb]. unfold try_catch.
  destruct (get "version" packageJson) as [[s| |t]|]; [contradiction|..];
    cbn [bumpVersion_of lift]; eexists; reflexivity.
Qed.

(** X17.  What a dry run reports: with a valid bump type and a manifest
    whose version text bumps to [newVersion], the run prints the
    version change and the dry-run notice, in this order, and exits
    with code 0. *)
Theorem dry_run_reports args w kind text packageJson s newVersion :
  nth_error args 0 = Some kind ->
  includes validBumpTypes kind = true ->
  includes args "--dry-run" = true ->
  package_json w = Some text ->
  JSON_parse text = Ok packageJson ->
  get "version" packageJson = Some (VString s) ->
  bumpVersion s kind = Ok newVersion ->
  run cwd JSON_parse JSON_stringify execSync args w
  = (emit (ConsoleLog (colors yellow ++ "🔍 Dry run mode - no changes made"
                       ++ colors reset))
       (emit (ConsoleLog (colors cyan
                          ++ ("📦 Version change: " ++ s ++ " -> "
                              ++ newVersion)
                          ++ colors reset)) w), 0).
Proof.
  intros Harg Hvalid Hdry Hfile Hjson Hget Hbump.
  destruct (validBumpTypes_inv _ Hvalid) as [Hhelp Hcur].
  unfold run, main. rewrite Harg, Hhelp, Hdry.
  rewrite (mbind_done _ _ _ _ _
             (readPackageJson_ok cwd JSON_parse _ _ _ Hfile Hjson)).
  rewrite Hcur, Hvalid. cbn [negb]. unfold try_catch.
  rewrite Hget. cbn [bumpVersion_of show]. rewrite Hbump. reflexivity.
Qed.

(** X18.  Writing the manifest and reading it back: when package.json
    is writable and the JSON codec reads back what it prints for the
    object, followed by a line feed, writePackageJson returns normally,
    readPackageJson then returns the object, and src/index.ts is not
    touched. *)
Theorem manifest_round_trip packageJson w :
  writable w PackageJson = true ->
  JSON_parse (JSON_stringify packageJson ++ LF) = Ok packageJson ->
  let w' := snd (writePackageJson cwd JSON_stringify packageJson w) in
  fst (writePackageJson cwd JSON_stringify packageJson w) = Done tt /\
  readPackageJson cwd JSON_parse w' = (Done packageJson, w') /\
  index_ts w' = index_ts w.
Proof.
  intros Hw Hcodec. cbv zeta.
  destruct (writePackageJson_ok cwd JSON_stringify packageJson w Hw)
    as [line E].
  rewrite E. cbn [fst snd]. split; [reflexivity|]. split; [|reflexivity].
  now apply (readPackageJson_ok cwd JSON_parse _
               (JSON_stringify packageJson ++ LF)).
Qed.

End Commands.

Lemma help_ignores_manifest_witness :
  let w := MkWorld None None (fun _ => true) [] in
  run "/repo" (fun _ => Ok [("version", VString "1.0.0")])
    (fun _ => "{}") (fun _ _ => None) ["help"; "--dry-run"] w
  = (MkWorld None None (fun _ => true) (map ConsoleLog help_lines), 0).
Proof.
  cbv zeta.
  apply (help_ignores_manifest "/repo"
           (fun _ => Ok [("version", VString "1.0.0")])
           (fun _ => "{}") (fun _ _ => None) ["help"; "--dry-run"]
           (MkWorld None None (fun _ => true) [])).
  reflexivity.
Defined.

Lemma current_prints_version_witness :
  let w := MkWorld (Some "{}") None (fun _ => true) [] in
  run "/repo" (fun _ => Ok [("name", VString "my-sample-package")])
    (fun _ => "{}") (fun _ _ => None) ["current"] w
  = (emit (ConsoleLog (colors cyan ++ "📦 Current version: " ++ "undefined"
                       ++ colors reset)) w, 0).
Proof.
  cbv zeta.
  apply (current_prints_version "/repo"
           (fun _ => Ok [("name", VString "my-sample-package")])
           (fun _ => "{}") (fun _ _ => None) ["current"]
           (MkWorld (Some "{}") None (fun _ => true) []) "{}"
           [("name", VString "my-sample-package")]);
    reflexivity.
Defined.

Lemma missing_version_aborts_witness :
  let w := MkWorld (Some "{}") None (fun _ => true) [] in
  exists message,
    run "/repo" (fun _ => Ok [("name", VString "my-sample-package")])
      (fun _ => "{}") (fun _ _ => None) ["patch"; "--dry-run"] w
    = (emit (ConsoleLog (colors red ++ "❌ Error: " ++ message
                         ++ colors reset)) w, 1).
Proof.
  cbv zeta.
  apply (missing_version_aborts "/repo"
           (fun _ => Ok [("name", VString "my-sample-package")])
           (fun _ => "{}") (fun _ _ => None) ["patch"; "--dry-run"]
           (MkWorld (Some "{}") None (fun _ => true) []) "patch" "{}"
           [("name", VString "my-sample-package")]);
    first [reflexivity | exact I].
Defined.

Lemma dry_run_reports_witness :
  let w := MkWorld (Some "{}") (Some "return '1.0.0';") (fun _ => true) [] in
  run "/repo" (fun _ => Ok [("version", VString "1.0.0")])
    (fun _ => "{}") (fun _ _ => Some "") ["major"; "--dry-run"] w
  = (emit (ConsoleLog (colors yellow ++ "🔍 Dry run mode - no changes made"
                       ++ colors reset))
       (emit (ConsoleLog (colors cyan
                          ++ "📦 Version change: 1.0.0 -> 2.0.0"
                          ++ colors reset)) w), 0).
Proof.
  cbv zeta.
  apply (dry_run_reports "/repo"
           (fun _ => Ok [("version", VString "1.0.0")])
           (fun _ => "{}") (fun _ _ => Some "") ["major"; "--dry-run"]
           (MkWorld (Some "{}") (Some "return '1.0.0';") (fun _ => true) [])
           "major" "{}" [("version", VString "1.0.0")] "1.0.0" "2.0.0");
    reflexivity.
Defined.

Lemma manifest_round_trip_witness :
  let w := MkWorld None None (fun _ => true) [] in
  let o := [("version", VString "1.0.0")] in
  let w' := snd (writePackageJson "/repo" (fun _ => "{}") o w) in
  fst (writePackageJson "/repo" (fun _ => "{}") o w) = Done tt /\
  readPackageJson "/repo" (fun _ => Ok o) w' = (Done o, w') /\
  index_ts w' = None.
Proof.
  cbv zeta.
  apply (manifest_round_trip "/repo"
           (fun _ => Ok [("version", VString "1.0.0")]) (fun _ => "{}")
           [("version", VString "1.0.0")]
           (MkWorld None None (fun _ => true) []));
    reflexivity.
Defined.

(** ** The manifest object *)

Lemma set_get_frame key v (o : object) :
  get key (set key v o) = Some v /\
  (forall k, k <> key -> get k (set key v o) = get k o) /\
  (get key o <> None -> map fst (set key v o) = map fst o) /\
  (get key o = None -> set key v o = (o ++ [(key, v)])%list).
Proof.
  induction o as [|[k0 v0] o (IH1 & IH2 & IH3 & IH4)]; cbn [set get].
  - rewrite String.eqb_refl. repeat split; auto.
    + intros k Hk. destruct (String.eqb_spec key k); congruence.
    + congruence.
  - destruct (String.eqb_spec k0 key) as [->|Hne]; cbn [get].
    + rewrite String.eqb_refl. repeat split; auto.
      * intros k Hk. destruct (String.eqb_spec key k); congruence.
      * congruence.
    + destruct (String.eqb_spec k0 key); [congruence|].
      repeat split; auto.
      * intros k Hk. destruct (String.eqb k0 k); auto.
      * intros H. cbn [map fst]. now rewrite IH3.
      * intros H. cbn [app]. now rewrite IH4.
Qed.

(** ** The source pattern on what the source-file step writes *)

Lemma length_string_app (a b : string) :
  String.length (a ++ b) = (String.length a + String.length b)%nat.
Proof. induction a; cbn; congruence. Qed.

(** The greedy run is kept when the continuation accepts what follows
    it. *)
Lemma star_longest p s i cs k r :
  k (MState (drop_while p s) (i + String.length (take_while p s)) cs)
  = Some r ->
  star p s i cs k = Some r.
Proof.
  revert i. induction s as [|c t IH]; intros i; cbn [star drop_while take_while].
  - cbn [String.length]. now rewrite Nat.add_0_r.
  - destruct (p c); cbn [String.length].
    + rewrite Nat.add_succ_r. intros H. now rewrite (IH (S i) H).
    + now rewrite Nat.add_0_r.
Qed.

Lemma drop_while_app_stops p a b :
  stops p b -> drop_while p (a ++ b) = drop_while p a ++ b.
Proof.
  intros Hb. induction a as [|c t IH]; cbn [append drop_while].
  - destruct b as [|c b]; [reflexivity|]. cbn in *. now rewrite Hb.
  - now destruct (p c).
Qed.

Lemma all_drop_while p q s :
  all_chars q s = true -> all_chars q (drop_while p s) = true.
Proof.
  induction s as [|c t IH]; cbn [drop_while all_chars]; auto.
  intros H. destruct (p c); [|exact H].
  apply andb_true_iff in H as [_ H]. auto.
Qed.

Lemma drop_length_append a b : drop (String.length a) (a ++ b) = b.
Proof. induction a; cbn; auto. Qed.

(** A match at some position makes the search succeed. *)
Lemma search_finds re j s i st :
  (j <= String.length s)%nat ->
  rmatch re (MState (drop j s) (i + j) []) Some = Some st ->
  exists r, search re s i = Some r.
Proof.
  revert s i. induction j as [|j IH]; intros s i Hj Hm.
  - rewrite Nat.add_0_r in Hm.
    assert (Hd : drop 0 s = s) by now destruct s.
    rewrite Hd in Hm.
    destruct s; cbn [search]; rewrite Hm; eauto.
  - destruct s as [|c t]; [cbn in Hj; lia|]. cbn [search].
    destruct (rmatch re (MState (String c t) i []) Some); [eauto|].
    apply (IH t (S i)); [cbn in Hj; lia|].
    cbn [drop] in Hm. now rewrite Nat.add_succ_r in Hm.
Qed.

Lemma star_stops p r i cs k :
  stops p r -> star p r i cs k = k (MState r i cs).
Proof. destruct r as [|c r]; cbn; [auto | now intros ->]. Qed.

Lemma strip_prefix_app a r : strip_prefix a (a ++ r) = Some r.
Proof.
  induction a as [|c a IH]; cbn; [now destruct r|].
  now rewrite Ascii.eqb_refl.
Qed.

Lemma rmatch_lit a re r j cs k :
  rmatch (Lit a @ re) (MState (a ++ r) j cs) k
  = rmatch re (MState r (j + String.length a) cs) k.
Proof. cbn [rmatch rest pos caps]. now rewrite strip_prefix_app. Qed.

Lemma rmatch_plus_cons p re c t j cs k :
  p c = true ->
  rmatch (Plus p @ re) (MState (String c t) j cs) k
  = star p t (S j) cs (fun st => rmatch re st k).
Proof. intros H. cbn [rmatch rest pos caps]. now rewrite H. Qed.

Lemma rmatch_class_cons p re c t j cs k :
  p c = true ->
  rmatch (Class p @ re) (MState (String c t) j cs) k
  = rmatch re (MState t (S j) cs) k.
Proof. intros H. cbn [rmatch rest pos caps]. now rewrite H. Qed.

Lemma rmatch_group_star n p st k :
  rmatch (Group n (Star p)) st k
  = star p (rest st) (pos st) (caps st)
      (fun st' =>
         k (MState (rest st') (pos st')
              ((n, take (pos st' - pos st) (rest st)) :: caps st'))).
Proof. reflexivity. Qed.

Lemma quote_semicolon after j cs :
  exists st,
    rmatch (Class is_quote @ Chr ";")
      (MState (String DQ (String ";" after)) j cs) Some = Some st.
Proof. eexists. reflexivity. Qed.

(** After the digits and dots, the optional group and the closing
    quote accept what is left of a plain version text. *)
Lemma version_tail_matches u after j :
  all_chars dash_word_dot u = true ->
  exists st,
    rmatch (Opt (Group 1 (Star dash_word_dot)) @ Class is_quote @ Chr ";")
      (MState (u ++ String DQ (String ";" after)) j []) Some = Some st.
Proof.
  intros Hu. set (tail := String DQ (String ";" after)).
  assert (Hstop : stops dash_word_dot tail) by reflexivity.
  rewrite rmatch_opt.
  destruct u as [|c u'].
  - cbn [append].
    destruct (rmatch (Group 1 (Star dash_word_dot)) _ _); [eauto|].
    apply quote_semicolon.
  - rewrite rmatch_group_star. cbn [rest pos caps].
    destruct (quote_semicolon after (j + String.length (String c u'))
                [(1%nat, String c u')]) as [st Hst].
    erewrite star_longest; [eauto|].
    rewrite (drop_while_app_stops _ _ tail Hstop), (drop_while_all _ _ Hu).
    rewrite (take_while_app _ _ _ Hu Hstop). cbn [append pos rest caps].
    destruct (Nat.eqb_spec (j + String.length (String c u')) j) as [E|_];
      [cbn [String.length] in E; lia|].
    replace (j + String.length (String c u') - j)%nat
      with (String.length (String c u')) by lia.
    change (String c (u' ++ tail)) with (String c u' ++ tail).
    rewrite take_length_append. exact Hst.
Qed.

Lemma statement_matches v after j :
  is_plain_version v = true ->
  exists st,
    rmatch versionRegex (MState (return_statement v ++ after) j []) Some
    = Some st.
Proof.
  intros Hv. destruct v as [|c t]; [discriminate|].
  cbn [is_plain_version] in Hv. apply andb_true_iff in Hv as [Hc Ht].
  set (tail := String DQ (String ";" after)).
  assert (Hs : return_statement (String c t) ++ after
               = "return" ++ String " " (String DQ (String c (t ++ tail)))).
  { unfold return_statement, tail. cbn [append]. do 8 f_equal.
    now rewrite append_assoc. }
  rewrite Hs. unfold versionRegex. rewrite rmatch_lit.
  rewrite rmatch_plus_cons by reflexivity.
  rewrite star_stops by reflexivity.
  rewrite rmatch_class_cons by reflexivity.
  rewrite (rmatch_plus_cons _ _ _ _ _ _ _ Hc).
  assert (Hstop : stops digit_or_dot tail) by reflexivity.
  destruct (version_tail_matches (drop_while digit_or_dot t) after
              (S (S (S (j + String.length "return")))
               + String.length (take_while digit_or_dot (t ++ tail))))
    as [st Hst]; [now apply all_drop_while|].
  exists st. apply star_longest.
  now rewrite (drop_while_app_stops _ t tail Hstop).
Qed.

Section Resync.

Variable cwd : string.

(** X20.  The source file stays in step over successive bumps: when the
    pattern matches and the new version text starts with a digit or a
    dot and goes on with dashes, word characters and dots only, as the
    texts made of counts and the seed do, the text the source-file step
    writes is matched by the pattern again. *)
Theorem updated_source_matches_again newVersion w content :
  index_ts w = Some content ->
  test versionRegex content = true ->
  writable w IndexTs = true ->
  is_plain_version newVersion = true ->
  exists content',
    index_ts (snd (updateSource cwd newVersion w)) = Some content' /\
    test versionRegex content' = true.
Proof.
  intros Hi Ht Hw Hv.
  rewrite (updateSource_match cwd _ _ _ Hi Ht Hw).
  cbn [snd emit store index_ts]. eexists. split; [reflexivity|].
  unfold replace. unfold test in Ht.
  destruct (exec versionRegex content) as [m|] eqn:Em; [|discriminate Ht].
  assert (Hplain : all_chars no_dollar
                     ("return " ++ String DQ (newVersion ++ String DQ ";"))
                   = true).
  { cbn [append all_chars]. rewrite all_chars_app.
    destruct newVersion as [|c t]; [discriminate Hv|].
    cbn [is_plain_version] in Hv. apply andb_true_iff in Hv as [Hc Hv].
    assert (H1 : no_dollar c = true) by (revert Hc; ascii_cases c).
    assert (H2 : all_chars no_dollar t = true).
    { revert Hv. apply all_chars_impl. intros x. ascii_cases x. }
    cbn [all_chars]. now rewrite H1, H2. }
  rewrite (expand_plain _ _ _ _ Hplain).
  set (before := take (index m) content).
  set (after := drop (index m + String.length (matched m)) content).
  destruct (statement_matches newVersion after (0 + String.length before) Hv)
    as [st Hst].
  assert (Hs : exists r,
             search versionRegex
               (before ++ return_statement newVersion ++ after) 0 = Some r).
  { apply (search_finds _ (String.length before) _ 0 st).
    - rewrite length_string_app. lia.
    - now rewrite drop_length_append. }
  destruct Hs as [[i r] Hs]. unfold test, exec.
  change ("return " ++ String DQ (newVersion ++ String DQ ";"))
    with (return_statement newVersion).
  now rewrite Hs.
Qed.

End Resync.

Lemma updated_source_matches_again_witness :
  let w := MkWorld None (Some "return '1.0.0';") (fun _ => true) [] in
  exists content',
    index_ts (snd (updateSource "/repo" "1.0.1-alpha.0" w)) = Some content' /\
    test versionRegex content' = true.
Proof.
  cbv zeta.
  apply (updated_source_matches_again "/repo" "1.0.1-alpha.0" _
           "return '1.0.0';"); reflexivity.
Defined.

(** ** The source file of the repository *)

Lemma quote_semicolon_end after j cs :
  exists st,
    rmatch (Class is_quote @ Chr ";")
      (MState (String DQ (String ";" after)) j cs) Some = Some st /\
    pos st = S (S j).
Proof. eexists. split; reflexivity. Qed.

Lemma version_tail_end u after j :
  all_chars dash_word_dot u = true ->
  exists st,
    rmatch (Opt (Group 1 (Star dash_word_dot)) @ Class is_quote @ Chr ";")
      (MState (u ++ String DQ (String ";" after)) j []) Some = Some st /\
    pos st = (j + String.length u + 2)%nat.
Proof.
  intros Hu. set (tail := String DQ (String ";" after)).
  assert (Hstop : stops dash_word_dot tail) by reflexivity.
  rewrite rmatch_opt.
  destruct u as [|c u'].
  - cbn [append]. rewrite rmatch_group_star. cbn [rest pos caps].
    rewrite (star_stops _ _ _ _ _ Hstop). cbn [pos]. rewrite Nat.eqb_refl.
    destruct (quote_semicolon_end after j []) as (st & Hst & Hpos).
    exists st. split; [exact Hst|]. cbn [String.length]. lia.
  - rewrite rmatch_group_star. cbn [rest pos caps].
    destruct (quote_semicolon_end after (j + String.length (String c u'))
                [(1%nat, String c u')]) as (st & Hst & Hpos).
    exists st. split; [|rewrite Hpos; lia].
    erewrite star_longest; [reflexivity|].
    rewrite (drop_while_app_stops _ _ tail Hstop), (drop_while_all _ _ Hu).
    rewrite (take_while_app _ _ _ Hu Hstop). cbn [append pos rest caps].
    destruct (Nat.eqb_spec (j + String.length (String c u')) j) as [E|_];
      [cbn [String.length] in E; lia|].
    replace (j + String.length (String c u') - j)%nat
      with (String.length (String c u')) by lia.
    change (String c (u' ++ tail)) with (String c u' ++ tail).
    rewrite take_length_append. exact Hst.
Qed.

Lemma take_while_app_stops p a b :
  stops p b -> take_while p (a ++ b) = take_while p a.
Proof.
  intros Hb. induction a as [|c t IH]; cbn [append take_while].
  - destruct b as [|c b]; [reflexivity|]. cbn in *. now rewrite Hb.
  - destruct (p c); [now rewrite IH | reflexivity].
Qed.

(** On the statement of a plain version text the pattern matches the
    whole statement. *)
Lemma statement_end v after j :
  is_plain_version v = true ->
  exists st,
    rmatch versionRegex (MState (return_statement v ++ after) j []) Some
    = Some st /\
    pos st = (j + String.length (return_statement v))%nat.
Proof.
  intros Hv. destruct v as [|c t]; [discriminate|].
  cbn [is_plain_version] in Hv. apply andb_true_iff in Hv as [Hc Ht].
  set (tail := String DQ (String ";" after)).
  assert (Hs : return_statement (String c t) ++ after
               = "return" ++ String " " (String DQ (String c (t ++ tail)))).
  { unfold return_statement, tail. cbn [append]. do 8 f_equal.
    now rewrite append_assoc. }
  rewrite Hs. unfold versionRegex. rewrite rmatch_lit.
  rewrite rmatch_plus_cons by reflexivity.
  rewrite star_stops by reflexivity.
  rewrite rmatch_class_cons by reflexivity.
  rewrite (rmatch_plus_cons _ _ _ _ _ _ _ Hc).
  assert (Hstop : stops digit_or_dot tail) by reflexivity.
  destruct (version_tail_end (drop_while digit_or_dot t) after
              (S (S (S (j + String.length "return")))
               + String.length (take_while digit_or_dot (t ++ tail))))
    as (st & Hst & Hpos); [now apply all_drop_while|].
  exists st. split.
  - apply star_longest.
    now rewrite (drop_while_app_stops _ t tail Hstop).
  - rewrite Hpos, (take_while_app_stops _ t tail Hstop).
    pose proof (f_equal String.length
                  (take_while_drop_while digit_or_dot t)) as Hl.
    rewrite length_string_app in Hl.
    unfold return_statement. cbn [append String.length].
    rewrite length_string_app. cbn [String.length]. lia.
Qed.

Lemma search_here re s i st :
  rmatch re (MState s i []) Some = Some st -> search re s i = Some (i, st).
Proof. intros H. destruct s; cbn [search]; now rewrite H. Qed.

(** A prefix without match is skipped by the search. *)
Lemma search_skip re a r i :
  no_match_in re a r i = true ->
  search re (a ++ r) i = search re r (i + String.length a).
Proof.
  revert i. induction a as [|c t IH]; intros i.
  - intros _. cbn [append String.length]. now rewrite Nat.add_0_r.
  - cbn [no_match_in append]. intros H. cbn [search].
    destruct (rmatch re (MState (String c (t ++ r)) i []) Some);
      [discriminate H|].
    rewrite (IH _ H). cbn [String.length]. now rewrite Nat.add_succ_r.
Qed.

(** The match of the source pattern in a text whose first statement of
    a version is that of a plain version text. *)
Lemma exec_statement before v after :
  is_plain_version v = true ->
  no_match_in versionRegex before (return_statement v ++ after) 0 = true ->
  exists cs,
    exec versionRegex (before ++ return_statement v ++ after)
    = Some (MkMatch (String.length before) (return_statement v) cs).
Proof.
  intros Hv Hskip. unfold exec. rewrite (search_skip _ _ _ _ Hskip).
  destruct (statement_end v after (0 + String.length before) Hv)
    as (st & Hst & Hpos).
  rewrite (search_here _ _ _ _ Hst). exists (caps st).
  rewrite Hpos, Nat.add_0_l, drop_length_append.
  replace (String.length before + String.length (return_statement v)
           - String.length before)%nat
    with (String.length (return_statement v)) by lia.
  now rewrite take_length_append.
Qed.

(** The source-file step on such a text, for a new version text without
    dollar sign. *)
Lemma replace_statement before v after newVersion :
  is_plain_version v = true ->
  no_match_in versionRegex before (return_statement v ++ after) 0 = true ->
  all_chars no_dollar newVersion = true ->
  replace versionRegex 1 (before ++ return_statement v ++ after)
    (return_statement newVersion)
  = before ++ return_statement newVersion ++ after.
Proof.
  intros Hv Hskip Hplain. unfold replace.
  destruct (exec_statement before v after Hv Hskip) as [cs ->].
  cbn [index matched]. rewrite expand_plain.
  - rewrite take_length_append, drop_drop, !drop_length_append. reflexivity.
  - unfold return_statement. cbn [append all_chars].
    rewrite all_chars_app, Hplain. reflexivity.
Qed.

(** The text of src/index.ts around the statement of getVersion. *)
Lemma index_ts_text_split literal :
  index_ts_text literal
  = take 494 (index_ts_text "") ++ return_statement literal
    ++ drop 504 (index_ts_text "").
Proof.
  set (before := take 494 _). vm_compute in before.
  set (after := drop 504 _). vm_compute in after.
  subst before after. unfold index_ts_text, return_statement.
  cbn [append]. rewrite append_assoc. reflexivity.
Qed.

(** No statement before that of getVersion matches the pattern,
    whatever follows. *)
Lemma index_ts_text_head r :
  no_match_in versionRegex (take 494 (index_ts_text "")) r 0 = true.
Proof. vm_compute. reflexivity. Qed.

Section Repository.

Variable cwd : string.

(** X21.  On the src/index.ts of the repository the source-file step
    rewrites the statement of getVersion and nothing else: when the
    file holds a version text that starts with a digit or a dot and
    goes on with dashes, word characters and dots, then for every new
    version text without dollar sign the file becomes the same text
    with the new version between the quotes, and package.json is not
    touched by the step. *)
Theorem repository_source_updated old newVersion w :
  is_plain_version old = true ->
  index_ts w = Some (index_ts_text old) ->
  writable w IndexTs = true ->
  all_chars no_dollar newVersion = true ->
  index_ts (snd (updateSource cwd newVersion w))
  = Some (index_ts_text newVersion) /\
  package_json (snd (updateSource cwd newVersion w)) = package_json w.
Proof.
  intros Hold Hi Hw Hplain.
  pose proof (index_ts_text_head
                (return_statement old ++ drop 504 (index_ts_text "")))
    as Hskip.
  assert (Ht : test versionRegex (index_ts_text old) = true).
  { unfold test. rewrite index_ts_text_split.
    now destruct (exec_statement _ _ _ Hold Hskip) as [cs ->]. }
  rewrite (updateSource_match cwd _ _ _ Hi Ht Hw).
  cbn [snd emit store index_ts package_json]. split; [|reflexivity].
  f_equal. rewrite (index_ts_text_split old), (index_ts_text_split newVersion).
  exact (replace_statement _ _ _ _ Hold Hskip Hplain).
Qed.

End Repository.

Lemma repository_source_updated_witness :
  let w := MkWorld None (Some (index_ts_text "1.0.0")) (fun _ => true) [] in
  index_ts (snd (updateSource "/repo" "1.1.0-alpha.0" w))
  = Some (index_ts_text "1.1.0-alpha.0") /\
  package_json (snd (updateSource "/repo" "1.1.0-alpha.0" w)) = None.
Proof.
  cbv zeta.
  apply (repository_source_updated "/repo" "1.0.0" "1.1.0-alpha.0");
    reflexivity.
Defined.

(** ** The unit test of getVersion *)

Lemma rmatch_seq r1 r2 st k :
  rmatch (r1 @ r2) st k = rmatch r1 st (fun st1 => rmatch r2 st1 k).
Proof. reflexivity. Qed.

Lemma rmatch_opt_bare r' st k :
  rmatch (Opt r') st k
  = match rmatch r' st
            (fun st' => if Nat.eqb (pos st') (pos st) then None else k st')
    with
    | Some x => Some x
    | None => k st
    end.
Proof. reflexivity. Qed.

Lemma rmatch_group n r st k :
  rmatch (Group n r) st k
  = rmatch r st
      (fun st' =>
         k (MState (rest st') (pos st')
              ((n, take (pos st' - pos st) (rest st)) :: caps st'))).
Proof. reflexivity. Qed.

(** A whole run of the class, followed by a text that does not go on
    with it, is taken when the continuation accepts what follows. *)
Lemma plus_longest p a r j cs k :
  a <> "" -> all_chars p a = true -> stops p r ->
  (exists st, k (MState r (j + String.length a) cs) = Some st) ->
  exists st, rmatch (Plus p) (MState (a ++ r) j cs) k = Some st.
Proof.
  intros Ha Hall Hr [st Hk]. exists st.
  destruct a as [|c a']; [congruence|].
  cbn [all_chars] in Hall. apply andb_true_iff in Hall as [Hc Hall].
  cbn [append rmatch rest pos caps]. rewrite Hc.
  apply star_longest.
  rewrite (drop_while_app _ _ _ Hall Hr), (take_while_app _ _ _ Hall Hr).
  rewrite <- Hk. do 2 f_equal. cbn [String.length]. lia.
Qed.

Lemma plus_whole p a j cs k :
  a <> "" -> all_chars p a = true ->
  (exists st, k (MState "" (j + String.length a) cs) = Some st) ->
  exists st, rmatch (Plus p) (MState a j cs) k = Some st.
Proof.
  intros Ha Hall Hk.
  pose proof (plus_longest p a "" j cs k Ha Hall I Hk) as H.
  now rewrite append_nil_r in H.
Qed.

Lemma is_digits_nonempty ds : is_digits ds = true -> ds <> "".
Proof. now destruct ds. Qed.

Lemma is_tag_inv label :
  is_tag label = true -> label <> "" /\ all_chars word_or_dash label = true.
Proof. destruct label; [discriminate|]. now split. Qed.

Lemma accepting_eol n : accepting (fun st => rmatch Eol st Some) n.
Proof. intros j cs _. eexists. reflexivity. Qed.

Lemma accepting_group k n (f : mstate -> nat * string) :
  accepting k n ->
  accepting (fun st' => k (MState (rest st') (pos st') (f st' :: caps st'))) n.
Proof. intros Hk j cs Hj. apply Hk, Hj. Qed.

Lemma accepting_check k n j0 :
  accepting k n -> (j0 <= n)%nat ->
  accepting (fun st' => if Nat.eqb (pos st') j0 then None else k st') n.
Proof.
  intros Hk Hle j cs Hj. cbn [pos].
  destruct (Nat.eqb_spec j j0); [lia|]. apply Hk, Hj.
Qed.

Lemma accepting_mono k n n' :
  accepting k n -> (n <= n')%nat -> accepting k n'.
Proof. intros Hk Hle j cs Hj. apply Hk. lia. Qed.

(** The optional counter of the pattern of the test. *)
Lemma counter_accepts tl j cs k :
  accepting k j ->
  tl = "" \/ (exists ds, is_digits ds = true /\ tl = "." ++ ds) ->
  (tl = "" -> exists st, k (MState "" j cs) = Some st) ->
  exists st,
    rmatch (Opt (Group 2 (Chr "." @ Plus is_digit))) (MState tl j cs) k
    = Some st.
Proof.
  intros Hk Htl Hnow. rewrite rmatch_opt_bare.
  destruct Htl as [->|(ds & Hd & ->)].
  - destruct (rmatch (Group 2 _) _ _); [eauto|]. now apply Hnow.
  - rewrite rmatch_group, rmatch_chr_k.
    cbn [append expect rest pos caps]. rewrite Ascii.eqb_refl.
    match goal with
    | |- exists st, match rmatch (Plus ?p) ?s ?k' with _ => _ end = _ =>
        destruct (plus_whole p ds (S j) cs k'
                    (is_digits_nonempty _ Hd) (is_digits_all _ Hd))
          as [st Hst]
    end.
    + cbn [rest pos caps].
      destruct (Nat.eqb_spec (S j + String.length ds) j); [lia|].
      apply Hk. lia.
    + rewrite Hst. eauto.
Qed.

(** The dash, the tag and the optional counter. *)
Lemma tag_accepts label tl j cs k :
  accepting k j ->
  is_tag label = true ->
  tl = "" \/ (exists ds, is_digits ds = true /\ tl = "." ++ ds) ->
  exists st,
    rmatch (Chr "-" @ Plus word_or_dash
            @ Opt (Group 2 (Chr "." @ Plus is_digit)))
      (MState ("-" ++ label ++ tl) j cs) k = Some st.
Proof.
  intros Hk Hl Htl. apply is_tag_inv in Hl as [Hne Hall].
  rewrite rmatch_chr_k. cbn [append expect]. rewrite Ascii.eqb_refl.
  rewrite rmatch_seq. apply plus_longest; auto.
  - destruct Htl as [->|(ds & _ & ->)]; [exact I | reflexivity].
  - apply counter_accepts; auto.
    + apply (accepting_mono k j); [exact Hk | lia].
    + intros _. apply Hk. destruct label; [congruence|]. cbn. lia.
Qed.

Lemma test_suffix_accepts sfx j :
  sfx = "" \/
  (exists label tl,
      is_tag label = true /\
      (tl = "" \/ (exists ds, is_digits ds = true /\ tl = "." ++ ds)) /\
      sfx = "-" ++ label ++ tl) ->
  exists st,
    rmatch (Opt (Group 1 (Chr "-" @ Plus word_or_dash
                          @ Opt (Group 2 (Chr "." @ Plus is_digit))))
            @ Eol) (MState sfx j []) Some = Some st.
Proof.
  intros [->|(label & tl & Hl & Htl & ->)]; rewrite rmatch_opt.
  - destruct (rmatch _ _ _); [eauto|]. eexists. reflexivity.
  - rewrite rmatch_group.
    match goal with
    | |- exists st, match rmatch ?r ?s ?k with _ => _ end = _ =>
        destruct (tag_accepts label tl j [] k) as [st Hst]; auto
    end.
    + cbn [rest pos caps].
      apply (accepting_group
               (fun st' => if Nat.eqb (pos st') j then None
                           else rmatch Eol st' Some) j
               (fun st' => (1%nat, take (pos st' - j) ("-" ++ label ++ tl)))).
      apply accepting_check; [apply accepting_eol | lia].
    + rewrite Hst. eauto.
Qed.

Lemma test_re_accepts d1 d2 d3 sfx :
  is_digits d1 = true -> is_digits d2 = true -> is_digits d3 = true ->
  sfx = "" \/
  (exists label tl,
      is_tag label = true /\
      (tl = "" \/ (exists ds, is_digits ds = true /\ tl = "." ++ ds)) /\
      sfx = "-" ++ label ++ tl) ->
  test getVersion_test_re (d1 ++ "." ++ d2 ++ "." ++ d3 ++ sfx) = true.
Proof.
  intros H1 H2 H3 Hs.
  assert (Hstop : stops is_digit sfx).
  { destruct Hs as [->|(label & tl & _ & _ & ->)]; [exact I | reflexivity]. }
  assert (Hm : exists st,
             rmatch getVersion_test_re
               (MState (d1 ++ "." ++ d2 ++ "." ++ d3 ++ sfx) 0 []) Some
             = Some st).
  { unfold getVersion_test_re.
    change (rmatch (Bol @ ?r) (MState ?s 0 []) Some)
      with (rmatch r (MState s 0 []) Some).
    rewrite rmatch_seq.
    apply plus_longest;
      [now apply is_digits_nonempty | now apply is_digits_all
       | reflexivity |].
    rewrite rmatch_chr_k. cbn [append expect]. rewrite Ascii.eqb_refl.
    rewrite rmatch_seq.
    apply plus_longest;
      [now apply is_digits_nonempty | now apply is_digits_all
       | reflexivity |].
    rewrite rmatch_chr_k. cbn [append expect]. rewrite Ascii.eqb_refl.
    rewrite rmatch_seq.
    apply plus_longest;
      [now apply is_digits_nonempty | now apply is_digits_all
       | exact Hstop |].
    now apply test_suffix_accepts. }
  destruct Hm as [st Hm].
  destruct (search_finds getVersion_test_re 0
              (d1 ++ "." ++ d2 ++ "." ++ d3 ++ sfx) 0 st) as [[i st'] Hr].
  - lia.
  - assert (Hd : forall x, drop 0 x = x) by now intros [|? ?].
    now rewrite Hd.
  - unfold test, exec. now rewrite Hr.
Qed.

Lemma tagged_suffix label tl :
  is_tag label = true ->
  tl = "" \/ (exists ds, is_digits ds = true /\ tl = "." ++ ds) ->
  suffix_of (Some (label ++ tl)) = "" \/
  (exists label' tl',
      is_tag label' = true /\
      (tl' = "" \/ (exists ds, is_digits ds = true /\ tl' = "." ++ ds)) /\
      suffix_of (Some (label ++ tl)) = "-" ++ label' ++ tl').
Proof. intros Hl Htl. right. exists label, tl. auto. Qed.

Lemma format_tagged M m p pre :
  0 <= M -> 0 <= m -> 0 <= p ->
  match pre with Some q => truthy (Some q) = true | None => True end ->
  suffix_of pre = "" \/
  (exists label tl,
      is_tag label = true /\
      (tl = "" \/ (exists ds, is_digits ds = true /\ tl = "." ++ ds)) /\
      suffix_of pre = "-" ++ label ++ tl) ->
  tagged_text (formatVersion (MkVersion (Int M) (Int m) (Int p) pre)).
Proof.
  intros HM Hm Hp Hpre Hs. rewrite formatVersion_counts by auto.
  exists (digits_of M), (digits_of m), (digits_of p), (suffix_of pre).
  repeat split; auto; apply is_digits_digits_of.
Qed.

Lemma seed_suffix :
  suffix_of (Some "alpha.0") = "" \/
  (exists label tl,
      is_tag label = true /\
      (tl = "" \/ (exists ds, is_digits ds = true /\ tl = "." ++ ds)) /\
      suffix_of (Some "alpha.0") = "-" ++ label ++ tl).
Proof.
  apply (tagged_suffix "alpha" ".0"); [reflexivity|].
  right. exists "0". split; reflexivity.
Qed.

(** Bumping a Version with counts as components and a tagged prerelease
    gives a Version whose text is a tagged version text. *)
Lemma bumped_text_tagged M m p pre kind v' :
  0 <= M -> 0 <= m -> 0 <= p ->
  is_tagged pre = true ->
  bump (MkVersion (Int M) (Int m) (Int p) pre) kind = Ok v' ->
  tagged_text (formatVersion v').
Proof.
  intros HM Hm Hp Htag Hb.
  destruct (includes validBumpTypes kind) eqn:Hk;
    [|rewrite (bump_kind_invalid _ _ Hk) in Hb; discriminate Hb].
  apply validBumpTypes_cases in Hk.
  destruct Hk as [->|[->|[->|[->|[->|[->| ->]]]]]];
    try (injection Hb as <-; apply format_tagged;
         solve [lia | exact I | reflexivity | now left | apply seed_suffix]).
  destruct pre as [q|].
  - cbn [is_tagged] in Htag.
    destruct (split "." q) as [|label [|count [|x r]]] eqn:Es;
      try discriminate Htag.
    + assert (Hq : truthy (Some q) = true).
      { destruct q; [|reflexivity]. cbn in Es. injection Es as <-.
        discriminate Htag. }
      rewrite bump_prerelease_other in Hb
        by (auto; unfold counter_of; now rewrite Es).
      injection Hb as <-. apply format_tagged;
        solve [lia | reflexivity | apply seed_suffix].
    + apply andb_true_iff in Htag as [Hl Hd].
      rewrite (bump_prerelease_counter _ _ _ _ label (digits_value 10 0 count))
        in Hb
        by (unfold counter_of; now rewrite Es, (parseInt_digits _ Hd)).
      rewrite toString_count in Hb
        by (pose proof (digits_value_nonneg count 0); lia).
      injection Hb as <-.
      apply format_tagged; try lia.
      * now destruct label.
      * apply tagged_suffix; auto. right. eexists. split; [|reflexivity].
        apply is_digits_digits_of.
  - rewrite bump_prerelease_absent in Hb by reflexivity.
    injection Hb as <-. apply format_tagged;
      solve [lia | reflexivity | apply seed_suffix].
Qed.

Lemma tagged_text_test s :
  tagged_text s -> test getVersion_test_re s = true.
Proof.
  intros (d1 & d2 & d3 & sfx & H1 & H2 & H3 & Hs & ->).
  now apply test_re_accepts.
Qed.

(** X22.  The unit test of getVersion keeps passing over bumps.  From a
    Version with counts as components whose prerelease is absent, a tag
    of word characters and dashes, or such a tag with a dot and a run
    of digits of a value within the exact range, every bump gives a
    Version whose text the pattern of the test in index.test.ts
    accepts. *)
Theorem bumps_keep_the_unit_test M m p pre kind v' :
  valid_version (MkVersion (Int M) (Int m) (Int p) pre) = true ->
  is_tagged pre = true ->
  safe_counter pre = true ->
  bump (MkVersion (Int M) (Int m) (Int p) pre) kind = Ok v' ->
  test getVersion_test_re (formatVersion v') = true.
Proof.
  intros Hv Htag _ Hb.
  apply valid_version_inv in Hv
    as (M0 & m0 & p0 & Ev & HM & Hm & Hp & _).
  injection Ev as -> -> ->.
  apply tagged_text_test.
  apply (bumped_text_tagged M0 m0 p0 pre kind); auto; lia.
Qed.

Lemma bumps_keep_the_unit_test_witness :
  test getVersion_test_re
    (formatVersion (MkVersion (Int 1) (Int 0) (Int 0) (Some "rc-1.8")))
  = true.
Proof.
  apply (bumps_keep_the_unit_test 1 0 0 (Some "rc-1.7") "prerelease");
    reflexivity.
Defined.

(** ** A bump run on the repository *)

Lemma word_or_dash_class c : word_or_dash c = true -> dash_word_dot c = true.
Proof. ascii_cases c. Qed.

Lemma digit_class c : is_digit c = true -> dash_word_dot c = true.
Proof. ascii_cases c. Qed.

Lemma digits_class ds :
  is_digits ds = true -> all_chars dash_word_dot ds = true.
Proof.
  intros H. apply (all_chars_impl is_digit); [apply digit_class|].
  now apply is_digits_all.
Qed.

Lemma tagged_text_plain s : tagged_text s -> is_plain_version s = true.
Proof.
  intros (d1 & d2 & d3 & sfx & H1 & H2 & H3 & Hs & ->).
  assert (Hall : all_chars dash_word_dot
                   (d1 ++ "." ++ d2 ++ "." ++ d3 ++ sfx) = true).
  { rewrite all_chars_app, (digits_class _ H1). cbn [append all_chars andb].
    rewrite all_chars_app, (digits_class _ H2). cbn [append all_chars andb].
    rewrite all_chars_app, (digits_class _ H3). cbn [andb].
    destruct Hs as [->|(label & tl & Hl & Htl & ->)]; [reflexivity|].
    cbn [append all_chars andb]. rewrite all_chars_app.
    apply is_tag_inv in Hl as [_ Hl].
    rewrite (all_chars_impl _ _ _ word_or_dash_class Hl). cbn [andb].
    destruct Htl as [->|(ds & Hds & ->)]; [reflexivity|].
    cbn [append all_chars andb]. now apply digits_class. }
  destruct (is_digits_inv _ H1) as (c & t & -> & Hc & _).
  cbn [append all_chars is_plain_version] in *.
  apply andb_true_iff in Hall as [_ Hall]. rewrite Hall.
  unfold digit_or_dot. now rewrite Hc.
Qed.

Lemma plain_no_dollar s :
  is_plain_version s = true -> all_chars no_dollar s = true.
Proof.
  destruct s as [|c t]; [discriminate|].
  cbn [is_plain_version all_chars]. intros H.
  apply andb_true_iff in H as [Hc Ht].
  assert (H1 : no_dollar c = true) by (revert Hc; ascii_cases c).
  rewrite H1. cbn [andb]. revert Ht. apply all_chars_impl.
  intros x. ascii_cases x.
Qed.

Section RepositoryRun.

Variable cwd : string.
Variable JSON_parse : string -> result object.
Variable JSON_stringify : object -> string.
Variable execSync : World -> string -> option string.

Lemma git_check_some args w1 :
  exists b tr,
    (if negb (includes args "--no-git")
     then checkGitStatus execSync else ret false) w1
    = (Done b,
       MkWorld (package_json w1) (index_ts w1) (writable w1)
         (trace w1 ++ tr)).
Proof.
  destruct (includes args "--no-git"); cbn [negb].
  - exists false, []. unfold ret. rewrite app_nil_r. now destruct w1.
  - destruct (checkGitStatus_eq execSync w1) as [l E]. rewrite E. eauto.
Qed.

Lemma tag_step_some b newVersion w4 :
  exists tr,
    when b (createGitTag execSync newVersion) w4
    = (Done tt,
       MkWorld (package_json w4) (index_ts w4) (writable w4)
         (trace w4 ++ tr)).
Proof.
  destruct b; cbn [when].
  - destruct (createGitTag_eq execSync newVersion w4) as [l E].
    rewrite E. eauto.
  - exists []. unfold ret. rewrite app_nil_r. now destruct w4.
Qed.

(** The files after a bump that can write both of them, whatever the
    source-control tool answers. *)
Lemma bump_run_files args w kind text packageJson s newVersion :
  nth_error args 0 = Some kind ->
  includes validBumpTypes kind = true ->
  includes args "--dry-run" = false ->
  package_json w = Some text ->
  JSON_parse text = Ok packageJson ->
  get "version" packageJson = Some (VString s) ->
  bumpVersion s kind = Ok newVersion ->
  writable w PackageJson = true ->
  writable w IndexTs = true ->
  exists tr,
    run cwd JSON_parse JSON_stringify execSync args w
    = (MkWorld
         (Some (manifest_text JSON_stringify newVersion packageJson))
         (option_map
            (fun content =>
               replace versionRegex 1 content (return_statement newVersion))
            (index_ts w))
         (writable w) (trace w ++ tr), 0).
Proof.
  intros Harg Hvalid Hdry Hfile Hjson Hget Hbump Hwp Hwi.
  destruct (validBumpTypes_inv _ Hvalid) as [Hhelp Hcur].
  unfold run, main. rewrite Harg, Hhelp, Hdry.
  rewrite (mbind_done _ _ _ _ _
             (readPackageJson_ok cwd JSON_parse _ _ _ Hfile Hjson)).
  rewrite Hcur, Hvalid. cbn [negb]. unfold try_catch.
  rewrite Hget. cbn [bumpVersion_of]. rewrite Hbump. cbn [lift].
  rewrite (mbind_done _ _ w newVersion w) by reflexivity.
  erewrite mbind_done by reflexivity.
  set (w1 := emit _ w).
  destruct (git_check_some args w1) as (b & tr1 & Egit).
  rewrite (mbind_done _ _ _ _ _ Egit). clear Egit.
  set (w2 := MkWorld _ _ _ _).
  destruct (writePackageJson_ok cwd JSON_stringify
              (set "version" (VString newVersion) packageJson) w2 Hwp)
    as [l2 E2].
  rewrite (mbind_done _ _ _ _ _ E2). clear E2. set (w3 := MkWorld _ _ _ _).
  destruct (updateSource_eq cwd newVersion w3 Hwi) as [l3 E3].
  rewrite (mbind_done _ _ _ _ _ E3). clear E3. set (w4 := MkWorld _ _ _ _).
  destruct (tag_step_some b newVersion w4) as [tr4 E4].
  rewrite (mbind_done _ _ _ _ _ E4). clear E4.
  unfold mbind, colorLog, console_log, emit.
  cbn [trace package_json index_ts writable].
  subst w4 w3 w2 w1. unfold emit.
  cbn [trace package_json index_ts writable].
  eexists. unfold manifest_text. f_equal. f_equal.
  rewrite <- !app_assoc. reflexivity.
Qed.

(** X19.  A bump changes the version of the manifest and nothing else
    of it: the object written to package.json holds the new version
    under [version], every other key reads as in the manifest that was
    read, and the keys are in the same order. *)
Theorem bump_changes_version_only args w kind text packageJson s newVersion :
  nth_error args 0 = Some kind ->
  includes validBumpTypes kind = true ->
  includes args "--dry-run" = false ->
  package_json w = Some text ->
  JSON_parse text = Ok packageJson ->
  get "version" packageJson = Some (VString s) ->
  bumpVersion s kind = Ok newVersion ->
  writable w PackageJson = true ->
  writable w IndexTs = true ->
  exists written,
    package_json (fst (run cwd JSON_parse JSON_stringify execSync args w))
    = Some (JSON_stringify written ++ LF) /\
    get "version" written = Some (VString newVersion) /\
    (forall k, k <> "version" -> get k written = get k packageJson) /\
    map fst written = map fst packageJson.
Proof.
  intros Harg Hvalid Hdry Hfile Hjson Hget Hbump Hwp Hwi.
  destruct (bump_run_files args w kind text packageJson s newVersion
              Harg Hvalid Hdry Hfile Hjson Hget Hbump Hwp Hwi) as [tr ->].
  exists (set "version" (VString newVersion) packageJson).
  destruct (set_get_frame "version" (VString newVersion) packageJson)
    as (H1 & H2 & H3 & _).
  cbn [fst package_json]. repeat split; auto.
  apply H3. rewrite Hget. discriminate.
Qed.

(** X23.  A bump keeps the two places of the version in step.  On the
    src/index.ts of the repository, holding a version text that starts
    with a digit or a dot and goes on with dashes, word characters and
    dots, with a manifest whose version parses to a valid Version with
    a tagged prerelease, every valid bump type without [--dry-run],
    both files writable, ends with code 0, the new version in the
    manifest written to package.json and the same text between the
    quotes of getVersion; and the unit test of getVersion accepts that
    text. *)
Theorem bump_keeps_source_in_step args w kind text packageJson s v old :
  nth_error args 0 = Some kind ->
  includes validBumpTypes kind = true ->
  includes args "--dry-run" = false ->
  package_json w = Some text ->
  JSON_parse text = Ok packageJson ->
  get "version" packageJson = Some (VString s) ->
  parseVersion s = Ok v ->
  valid_version v = true ->
  is_tagged (prerelease v) = true ->
  safe_counter (prerelease v) = true ->
  writable w PackageJson = true ->
  writable w IndexTs = true ->
  index_ts w = Some (index_ts_text old) ->
  is_plain_version old = true ->
  exists newVersion,
    bumpVersion s kind = Ok newVersion /\
    snd (run cwd JSON_parse JSON_stringify execSync args w) = 0 /\
    package_json (fst (run cwd JSON_parse JSON_stringify execSync args w))
    = Some (manifest_text JSON_stringify newVersion packageJson) /\
    index_ts (fst (run cwd JSON_parse JSON_stringify execSync args w))
    = Some (index_ts_text newVersion) /\
    test getVersion_test_re newVersion = true.
Proof.
  intros Harg Hvalid Hdry Hfile Hjson Hget Hparse Hv Htag _ Hwp Hwi Hsrc
    Hold.
  destruct (bump_kind_valid v kind Hvalid) as [v' Hb].
  assert (Hbump : bumpVersion s kind = Ok (formatVersion v')).
  { unfold bumpVersion. rewrite Hparse. cbn [bind]. now rewrite Hb. }
  assert (Ht : tagged_text (formatVersion v')).
  { apply valid_version_inv in Hv
      as (M & m & p & Ev & HM & Hm & Hp & _).
    rewrite Ev in Hb.
    apply (bumped_text_tagged M m p (prerelease v) kind); auto; lia. }
  exists (formatVersion v'). split; [exact Hbump|].
  destruct (bump_run_files args w kind text packageJson s (formatVersion v')
              Harg Hvalid Hdry Hfile Hjson Hget Hbump Hwp Hwi) as [tr ->].
  cbn [fst snd package_json index_ts]. split; [reflexivity|].
  split; [reflexivity|]. split; [|now apply tagged_text_test].
  rewrite Hsrc. cbn [option_map]. f_equal.
  rewrite (index_ts_text_split old),
    (index_ts_text_split (formatVersion v')).
  apply replace_statement;
    [exact Hold | apply index_ts_text_head
     | now apply plain_no_dollar, tagged_text_plain].
Qed.

End RepositoryRun.

Lemma bump_changes_version_only_witness :
  let o := [("name", VString "my-sample-package");
            ("version", VString "1.0.0");
            ("main", VString "dist/index.js")] in
  let w := MkWorld (Some "{}") None (fun _ => true) [] in
  exists written,
    package_json
      (fst (run "/repo" (fun _ => Ok o) (fun _ => "{}") (fun _ _ => None)
              ["minor"] w))
    = Some ("{}" ++ LF) /\
    get "version" written = Some (VString "1.1.0") /\
    (forall k, k <> "version" -> get k written = get k o) /\
    map fst written = map fst o.
Proof.
  cbv zeta.
  apply (bump_changes_version_only "/repo"
           (fun _ => Ok [("name", VString "my-sample-package");
                         ("version", VString "1.0.0");
                         ("main", VString "dist/index.js")])
           (fun _ => "{}") (fun _ _ => None) ["minor"]
           (MkWorld (Some "{}") None (fun _ => true) [])
           "minor" "{}"
           [("name", VString "my-sample-package");
            ("version", VString "1.0.0");
            ("main", VString "dist/index.js")] "1.0.0" "1.1.0");
    reflexivity.
Defined.

Lemma bump_keeps_source_in_step_witness :
  let w := MkWorld (Some "{}") (Some (index_ts_text "1.0.0"))
             (fun _ => true) [] in
  let r := run "/repo" (fun _ => Ok [("version", VString "1.0.0")])
             (fun _ => "{}") (fun _ _ => None) ["prerelease"] w in
  exists newVersion,
    bumpVersion "1.0.0" "prerelease" = Ok newVersion /\
    snd r = 0 /\
    package_json (fst r)
    = Some (manifest_text (fun _ => "{}") newVersion
              [("version", VString "1.0.0")]) /\
    index_ts (fst r) = Some (index_ts_text newVersion) /\
    test getVersion_test_re newVersion = true.
Proof.
  cbv zeta.
  apply (bump_keeps_source_in_step "/repo"
           (fun _ => Ok [("version", VString "1.0.0")])
           (fun _ => "{}") (fun _ _ => None) ["prerelease"]
           (MkWorld (Some "{}") (Some (index_ts_text "1.0.0"))
              (fun _ => true) [])
           "prerelease" "{}" [("version", VString "1.0.0")] "1.0.0"
           (MkVersion (Int 1) (Int 0) (Int 0) None) "1.0.0");
    reflexivity.
Defined.
